(** * swarmauri-sdk: the Groq vision adapter and the Voyage embedding adapter

    A shallow embedding of
    - [pkgs/swarmauri/swarmauri/llms/concrete/GroqVisionModel.py]
      ([_format_messages], [predict], [apredict], [stream], [astream],
      [batch], [abatch]) and
    - [pkgs/swarmauri/swarmauri/embeddings/concrete/VoyageEmbedding.py]
      ([__init__], [transform]),
    followed by the properties of the specification that concern them.

    Python values are an inductive type, exceptions are an error monad, a
    generator is a resumable state, Conversation objects live in a store
    indexed by object identity, and the asyncio event loop of [abatch] is a
    deterministic machine driven by the order in which requests complete. *)

From Stdlib Require Import String Ascii List ZArith Bool Arith Lia.
From Stdlib Require Import Floats.SpecFloat.
Import ListNotations.
Open Scope string_scope.

Set Warnings "-register-all".

(** ** Python values, exceptions *)

Module Py.

(** The values [json.loads] and [response.json()] can produce, which are also
    the values [model_dump] produces for a message. A [dict] keeps its
    insertion order and has unique keys. JSON object keys are strings. A
    float is an IEEE 754 binary64 number: a signed zero, a signed infinity,
    a NaN, or sign, mantissa and exponent. *)
Inductive value : Type :=
| PNone
| PBool (b : bool)
| PInt (z : Z)
| PFloat (f : spec_float)
| PStr (s : string)
| PList (l : list value)
| PDict (d : list (string * value)).

(** The exceptions these programs raise. *)
Inductive exn : Type :=
| KeyError (key : value)
| IndexError
| TypeError
| AttributeError
| ValueError (msg : string)
| ValidationError
| JSONDecodeError
| ConnectionError
| HTTPError (status : Z)
| HTTPStatusError (status : Z).

(** A computation that returns or raises. *)
Inductive result (A : Type) : Type :=
| Ok (a : A)
| Raise (e : exn).
Arguments Ok {A} a.
Arguments Raise {A} e.

Definition bind {A B} (m : result A) (k : A -> result B) : result B :=
  match m with
  | Ok a => k a
  | Raise e => Raise e
  end.

Module Notations.
  Notation "x <- m ;; k" := (bind m (fun x => k))
    (at level 61, m at next level, right associativity).
End Notations.
Import Notations.

(** [bool(v)] *)
Definition truthy (v : value) : bool :=
  match v with
  | PNone => false
  | PBool b => b
  | PInt z => negb (Z.eqb z 0)
  | PFloat f => match f with S754_zero _ => false | _ => true end
  | PStr s => negb (String.eqb s EmptyString)
  | PList l => match l with [] => false | _ => true end
  | PDict d => match d with [] => false | _ => true end
  end.

(** Dictionary lookup by key. *)
Fixpoint dict_get (d : list (string * value)) (k : string) : option value :=
  match d with
  | [] => None
  | (k', v) :: d' => if String.eqb k' k then Some v else dict_get d' k
  end.

(** [d[k] = v]: an existing key keeps its position, a new key goes last. *)
Fixpoint dict_set (d : list (string * value)) (k : string) (v : value)
  : list (string * value) :=
  match d with
  | [] => [(k, v)]
  | (k', v') :: d' =>
      if String.eqb k' k then (k', v) :: d' else (k', v') :: dict_set d' k v
  end.

(** [d.update(e)], which is also how [{..., **e}] adds the entries of [e]. *)
Definition dict_update (d e : list (string * value)) : list (string * value) :=
  fold_left (fun acc kv => dict_set acc (fst kv) (snd kv)) e d.

(** [v[k]] for a string key [k]. Only a dict accepts a string subscript. *)
Definition getitem_str (v : value) (k : string) : result value :=
  match v with
  | PDict d =>
      match dict_get d k with
      | Some x => Ok x
      | None => Raise (KeyError (PStr k))
      end
  | _ => Raise TypeError
  end.

(** [v[i]] for a non-negative integer [i]. A JSON dict has string keys only,
    so an integer subscript of a dict is a KeyError. *)
Definition getitem_int (v : value) (i : nat) : result value :=
  match v with
  | PList l =>
      match nth_error l i with
      | Some x => Ok x
      | None => Raise IndexError
      end
  | PStr s =>
      match String.get i s with
      | Some c => Ok (PStr (String c EmptyString))
      | None => Raise IndexError
      end
  | PDict _ => Raise (KeyError (PInt (Z.of_nat i)))
  | _ => Raise TypeError
  end.

(** [v.get(k, default)]: a method of dict only. *)
Definition dict_method_get (v : value) (k : string) (default : value)
  : result value :=
  match v with
  | PDict d =>
      match dict_get d k with
      | Some x => Ok x
      | None => Ok default
      end
  | _ => Raise AttributeError
  end.

(** [s += v] for a string [s]: defined only when [v] is a string. *)
Definition str_iadd (s : string) (v : value) : result string :=
  match v with
  | PStr t => Ok (s ++ t)
  | _ => Raise TypeError
  end.

(** [s.replace(old, '')] for a non-empty [old]: every non-overlapping
    occurrence of [old], scanning from the left, is removed. [skip] counts
    the characters of a matched occurrence that remain to be dropped. *)
Fixpoint remove_from (old : string) (skip : nat) (s : string) : string :=
  match s with
  | EmptyString => EmptyString
  | String c s' =>
      match skip with
      | S k => remove_from old k s'
      | O =>
          if String.prefix old s
          then remove_from old (pred (String.length old)) s'
          else String c (remove_from old 0 s')
      end
  end.

Definition str_remove (s old : string) : string := remove_from old 0 s.

End Py.
Import Py Py.Notations.

(** ** A JSON decoder for the examples

    [json.loads] belongs to Python's standard library. The stream functions
    below take the decoder as an argument; this recursive-descent decoder
    instantiates it on concrete lines. It covers objects, arrays, strings with
    the two-character escapes, integers and the three literals, and it agrees
    with [json.loads] on such texts. Numbers with a fraction or an exponent,
    [\u] escapes and the literals NaN and Infinity are outside this fragment,
    and no example uses them. *)

Module Json.

Definition is_ws (c : ascii) : bool :=
  Ascii.eqb c " " || Ascii.eqb c "009" || Ascii.eqb c "010" || Ascii.eqb c "013".

Fixpoint skip_ws (s : string) : string :=
  match s with
  | String c r => if is_ws c then skip_ws r else s
  | EmptyString => s
  end.

Definition is_digit (c : ascii) : bool :=
  (48 <=? nat_of_ascii c)%nat && (nat_of_ascii c <=? 57)%nat.

Definition digit_val (c : ascii) : Z := Z.of_nat (nat_of_ascii c - 48).

Fixpoint digits (acc : Z) (s : string) : Z * string :=
  match s with
  | String c r => if is_digit c then digits (10 * acc + digit_val c) r else (acc, s)
  | EmptyString => (acc, s)
  end.

Definition strip_prefix (p s : string) : option string :=
  if String.prefix p s
  then Some (String.substring (String.length p) (String.length s - String.length p) s)
  else None.

Definition unescape (c : ascii) : option ascii :=
  if Ascii.eqb c "034" then Some "034"%char
  else if Ascii.eqb c "\" then Some "\"%char
  else if Ascii.eqb c "/" then Some "/"%char
  else if Ascii.eqb c "b" then Some "008"%char
  else if Ascii.eqb c "f" then Some "012"%char
  else if Ascii.eqb c "n" then Some "010"%char
  else if Ascii.eqb c "r" then Some "013"%char
  else if Ascii.eqb c "t" then Some "009"%char
  else None.

(** The characters of a string literal after its opening quote. *)
Fixpoint parse_string (s : string) : option (string * string) :=
  match s with
  | EmptyString => None
  | String c r =>
      if Ascii.eqb c "034" then Some (EmptyString, r)
      else if Ascii.eqb c "\" then
        match r with
        | String e r' =>
            match unescape e, parse_string r' with
            | Some ch, Some (t, rest) => Some (String ch t, rest)
            | _, _ => None
            end
        | EmptyString => None
        end
      else if (nat_of_ascii c <? 32)%nat then None
      else
        match parse_string r with
        | Some (t, rest) => Some (String c t, rest)
        | None => None
        end
  end.

(** An integer: an optional minus sign, then [0] or a digit sequence that
    does not start with [0]. *)
Definition parse_int (s : string) : option (Z * string) :=
  let '(neg, s1) :=
    match s with
    | String "-" r => (true, r)
    | _ => (false, s)
    end in
  match s1 with
  | String c r =>
      if negb (is_digit c) then None
      else
        let '(n, rest) := if Ascii.eqb c "0" then (0%Z, r) else digits 0 s1 in
        match rest with
        | String d _ =>
            if Ascii.eqb d "." || Ascii.eqb d "e" || Ascii.eqb d "E" then None
            else Some (if neg then Z.opp n else n, rest)
        | EmptyString => Some (if neg then Z.opp n else n, rest)
        end
  | EmptyString => None
  end.

Fixpoint parse_value (fuel : nat) (s : string) {struct fuel}
  : option (value * string) :=
  match fuel with
  | O => None
  | S n =>
      match skip_ws s with
      | EmptyString => None
      | String c r as s0 =>
          if Ascii.eqb c "{" then
            match skip_ws r with
            | String "}" r' => Some (PDict [], r')
            | r' => parse_members n [] r'
            end
          else if Ascii.eqb c "[" then
            match skip_ws r with
            | String "]" r' => Some (PList [], r')
            | r' => parse_elements n [] r'
            end
          else if Ascii.eqb c "034" then
            match parse_string r with
            | Some (t, rest) => Some (PStr t, rest)
            | None => None
            end
          else
            match strip_prefix "true" s0, strip_prefix "false" s0,
                  strip_prefix "null" s0 with
            | Some rest, _, _ => Some (PBool true, rest)
            | _, Some rest, _ => Some (PBool false, rest)
            | _, _, Some rest => Some (PNone, rest)
            | _, _, _ =>
                match parse_int s0 with
                | Some (z, rest) => Some (PInt z, rest)
                | None => None
                end
            end
      end
  end
with parse_elements (fuel : nat) (acc : list value) (s : string) {struct fuel}
  : option (value * string) :=
  match fuel with
  | O => None
  | S n =>
      match parse_value n s with
      | Some (v, r) =>
          match skip_ws r with
          | String "," r' => parse_elements n (v :: acc) r'
          | String "]" r' => Some (PList (rev (v :: acc)), r')
          | _ => None
          end
      | None => None
      end
  end
with parse_members (fuel : nat) (acc : list (string * value)) (s : string)
  {struct fuel} : option (value * string) :=
  match fuel with
  | O => None
  | S n =>
      match skip_ws s with
      | String "034"%char r =>
          match parse_string r with
          | Some (k, r1) =>
              match skip_ws r1 with
              | String ":" r2 =>
                  match parse_value n r2 with
                  | Some (v, r3) =>
                      match skip_ws r3 with
                      | String "," r4 => parse_members n (dict_set acc k v) r4
                      | String "}" r4 => Some (PDict (dict_set acc k v), r4)
                      | _ => None
                      end
                  | None => None
                  end
              | _ => None
              end
          | None => None
          end
      | _ => None
      end
  end.

(** [json.loads s]: one value, surrounded by optional white space. *)
Definition loads (s : string) : result value :=
  match parse_value (2 * String.length s + 2) s with
  | Some (v, rest) =>
      match skip_ws rest with
      | EmptyString => Ok v
      | _ => Raise JSONDecodeError
      end
  | None => Raise JSONDecodeError
  end.

End Json.

(** JSON texts are written below with an apostrophe where the text has a
    double quote. *)
Fixpoint json_text (s : string) : string :=
  match s with
  | EmptyString => EmptyString
  | String c r => String (if Ascii.eqb c "'" then "034"%char else c) (json_text r)
  end.

(** ** The HTTP transport

    [requests.post] and [httpx.AsyncClient.post] are the outside world. A
    transport answers one call: it raises (no connection) or returns a
    response, of which the code reads the status, the decoded document
    ([response.json()]) and the lines ([iter_lines], [aiter_lines]), which may
    break off with an exception after the lines delivered so far. A
    streaming [requests.post] hands the lines over as they arrive; the
    [client.post] of [httpx] reads the whole body first. *)

Module Http.

Record request : Type := {
  url : string;
  headers : list (string * string);
  json : value;
  stream : bool
}.

Record response : Type := {
  status_code : Z;
  response_json : result value;
  lines : list string;
  lines_error : option exn
}.

Definition transport : Type := request -> result response.

(** [response.raise_for_status()] of [requests]: client and server error
    statuses raise [requests.HTTPError]. *)
Definition raise_for_status (r : response) : result unit :=
  if (400 <=? status_code r)%Z && (status_code r <? 600)%Z
  then Raise (HTTPError (status_code r))
  else Ok tt.

(** [response.raise_for_status()] of [httpx]: every status that is not a
    success (2xx) raises [httpx.HTTPStatusError]. *)
Definition httpx_raise_for_status (r : response) : result unit :=
  if (200 <=? status_code r)%Z && (status_code r <? 300)%Z
  then Ok tt
  else Raise (HTTPStatusError (status_code r)).

(** [await client.post(...)] of [httpx.AsyncClient], which does not stream:
    the body is read before the call returns, so a body that breaks off
    raises here, before any line is seen. *)
Definition httpx_post (post : transport) (req : request) : result response :=
  response <- post req ;;
  match lines_error response with
  | Some e => Raise e
  | None => Ok response
  end.

End Http.

(** ** Messages and conversations *)

(** Modelled from the spec: the class UsageData (module
    swarmauri.messages.concrete.AgentMessage) is not among the sources.
    Section 3: a fixed record of token counts (prompt, completion, total);
    sections 3, 4.3 and 9 describe the source as permissive, a count the
    provider did not send being absent from the record. *)
Record UsageData : Type := {
  prompt_tokens : option Z;
  completion_tokens : option Z;
  total_tokens : option Z
}.

(** Modelled from the spec: the message classes (MessageBase, AgentMessage)
    are not among the sources. Section 3: a message has a role, a content that
    is plain text or an ordered sequence of typed content blocks, and an
    optional usage; [_format_messages] also reads an optional [name]. A block
    is the mapping that [model_dump] returns for it. *)
Inductive content : Type :=
| Text (s : string)
| Blocks (items : list (list (string * value))).

Record Message : Type := {
  msg_role : string;
  msg_name : option string;
  msg_content : content;
  msg_usage : option UsageData
}.

(** Modelled from the spec: [AgentMessage(content=..., usage=...)], an
    assistant message whose content is the completion text (section 4.2); a
    content that is not text fails pydantic's validation. *)
Definition AgentMessage (content : value) (usage : option UsageData)
  : result Message :=
  match content with
  | PStr s =>
      Ok {| msg_role := "assistant"; msg_name := None;
            msg_content := Text s; msg_usage := usage |}
  | _ => Raise ValidationError
  end.

(** [message.model_dump(include=["content", "role", "name"],
    exclude_none=True)]: the three fields, a [None] name left out. *)
Definition model_dump (message : Message) : list (string * value) :=
  ([("content",
     match msg_content message with
     | Text s => PStr s
     | Blocks items => PList (map PDict items)
     end);
    ("role", PStr (msg_role message))]
   ++ match msg_name message with
      | Some n => [("name", PStr n)]
      | None => []
      end)%list.

(** Conversation objects are passed by reference and mutated in place: a
    store maps the identity of a Conversation to its history. *)
Definition ref : Type := nat.
Definition store : Type := ref -> list Message.

Definition upd (st : store) (r : ref) (h : list Message) : store :=
  fun r' => if Nat.eqb r' r then h else st r'.

(** Computations that read and write the store and may raise; what was
    written before an exception stays written. *)
Definition M (A : Type) : Type := store -> result A * store.

Definition ret {A} (a : A) : M A := fun st => (Ok a, st).

Definition mbind {A B} (m : M A) (k : A -> M B) : M B :=
  fun st =>
    match m st with
    | (Ok a, st') => k a st'
    | (Raise e, st') => (Raise e, st')
    end.

Definition lift {A} (r : result A) : M A := fun st => (r, st).

Notation "x <-- m ;; k" := (mbind m (fun x => k))
  (at level 61, m at next level, right associativity).

(** Modelled from the spec: the class Conversation is not among the sources.
    Section 6: [history] reads the ordered sequence of messages and
    [add_message] appends. *)
Definition history (conversation : ref) : M (list Message) :=
  fun st => (Ok (st conversation), st).

Definition add_message (conversation : ref) (message : Message) : M unit :=
  fun st => (Ok tt, upd st conversation (st conversation ++ [message])%list).

(** ** GroqVisionModel *)

Record GroqVisionModel : Type := {
  api_key : string;
  name : string
}.

Definition allowed_models : list string := ["llama-3.2-11b-vision-preview"].
Definition default_name : string := "llama-3.2-11b-vision-preview".
Definition _api_url : string := "https://api.groq.com/openai/v1/chat/completions".

(** The generation parameters every operation takes. *)
Record params : Type := {
  temperature : spec_float;
  max_tokens : Z;
  top_p : spec_float;
  enable_json : bool;
  stop : option (list string)
}.

Fixpoint mapM {A B} (f : A -> result B) (l : list A) : result (list B) :=
  match l with
  | [] => Ok []
  | a :: l' => b <- f a ;; bs <- mapM f l' ;; Ok (b :: bs)
  end.

(** [{"type": item["type"], **item}] *)
Definition retag (item : value) : result value :=
  t <- getitem_str item "type" ;;
  match item with
  | PDict d => Ok (PDict (dict_update [("type", t)] d))
  | _ => Raise TypeError
  end.

(** The body of the loop of [_format_messages]. *)
Definition format_message (message : Message) : result (list (string * value)) :=
  let formatted_message := model_dump message in
  c <- getitem_str (PDict formatted_message) "content" ;;
  match c with
  | PList items =>
      items' <- mapM retag items ;;
      Ok (dict_set formatted_message "content" (PList items'))
  | _ => Ok formatted_message
  end.

Definition _format_messages (messages : list Message)
  : result (list (list (string * value))) :=
  mapM format_message messages.

(** The payload [data] of the four request-building operations; the two
    stream operations add the [stream] entry. [stop or []] is the list, or
    the empty list for [None]. *)
Definition request_data (self : GroqVisionModel) (p : params)
  (formatted_messages : list (list (string * value))) (streaming : bool) : value :=
  let data :=
    ([("model", PStr (name self));
      ("messages", PList (map PDict formatted_messages));
      ("temperature", PFloat (temperature p));
      ("max_tokens", PInt (max_tokens p));
      ("top_p", PFloat (top_p p))]
     ++ (if streaming then [("stream", PBool true)] else [])
     ++ [("stop", PList (map PStr (match stop p with Some l => l | None => [] end)))])%list in
  PDict (if enable_json p
         then dict_set data "response_format" (PStr "json_object")
         else data).

Definition request_headers (self : GroqVisionModel) : list (string * string) :=
  [("Content-Type", "application/json");
   ("Authorization", "Bearer " ++ api_key self)].

Definition _make_request (post : Http.transport) (self : GroqVisionModel)
  (data : value) : result value :=
  response <- post {| Http.url := _api_url; Http.headers := request_headers self;
                      Http.json := data; Http.stream := false |} ;;
  _ <- Http.raise_for_status response ;;
  Http.response_json response.

(** A generator object: not started, suspended at its [yield] with the lines
    still to come and the text accumulated so far, or finished. *)
Inductive generator : Type :=
| Created
| Suspended (rest : list string) (broken : option exn) (message_content : string)
| Finished.

(** What one [next()] gives the consumer. *)
Inductive event : Type :=
| Yield (v : value)
| StopIteration
| Raised (e : exn).

(** What the consumer of an awaited call sees. *)
Inductive awaited (A : Type) : Type :=
| Pending
| Returned (a : A)
| Raising (e : exn).
Arguments Pending {A}.
Arguments Returned {A} a.
Arguments Raising {A} e.

(** A task of [abatch]: waiting for the semaphore, awaiting the thread that
    runs [_make_request] on [data], or done. *)
Inductive phase : Type :=
| Queued
| InFlight (data : value)
| Done (r : result ref).

Record loop : Type := {
  tasks : list (ref * phase);
  permits : nat;
  heap : store;
  first_exception : option exn
}.

Definition note (seen : option exn) (e : exn) : option exn :=
  match seen with
  | Some e0 => Some e0
  | None => Some e
  end.

Fixpoint set_nth {A} (i : nat) (a : A) (l : list A) : list A :=
  match l, i with
  | [], _ => []
  | _ :: l', O => a :: l'
  | b :: l', S j => b :: set_nth j a l'
  end.

Fixpoint results_of (ts : list (ref * phase)) : option (list ref) :=
  match ts with
  | [] => Some []
  | (_, Done (Ok r)) :: ts' =>
      match results_of ts' with
      | Some rs => Some (r :: rs)
      | None => None
      end
  | _ => None
  end.

(** [result["choices"][0]["message"]["content"]] *)
Definition completion_text (doc : value) : result value :=
  c <- getitem_str doc "choices" ;;
  c0 <- getitem_int c 0 ;;
  m <- getitem_str c0 "message" ;;
  getitem_str m "content".

Section Groq.

(** [json.loads], and [UsageData.model_validate], whose class is not among
    the sources. *)
Variable json_loads : string -> result value.
Variable model_validate : value -> result UsageData.

Definition _prepare_usage_data (usage_data : value) : result UsageData :=
  model_validate usage_data.

Definition predict (post : Http.transport) (self : GroqVisionModel) (p : params)
  (conversation : ref) : M ref :=
  h <-- history conversation ;;
  formatted_messages <-- lift (_format_messages h) ;;
  let data := request_data self p formatted_messages false in
  result <-- lift (_make_request post self data) ;;
  message_content <-- lift (completion_text result) ;;
  usage_data <-- lift (dict_method_get result "usage" (PDict [])) ;;
  usage <-- lift (_prepare_usage_data usage_data) ;;
  message <-- lift (AgentMessage message_content (Some usage)) ;;
  _ <-- add_message conversation message ;;
  ret conversation.

(** [apredict] up to its one suspension point,
    [await asyncio.to_thread(self._make_request, data)]. *)
Definition apredict_begin (self : GroqVisionModel) (p : params)
  (conversation : ref) : M value :=
  h <-- history conversation ;;
  formatted_messages <-- lift (_format_messages h) ;;
  ret (request_data self p formatted_messages false).

(** [apredict] from the point where the thread has returned or raised. *)
Definition apredict_resume (reply : result value) (conversation : ref) : M ref :=
  result <-- lift reply ;;
  message_content <-- lift (completion_text result) ;;
  usage_data <-- lift (dict_method_get result "usage" (PDict [])) ;;
  usage <-- lift (_prepare_usage_data usage_data) ;;
  message <-- lift (AgentMessage message_content (Some usage)) ;;
  _ <-- add_message conversation message ;;
  ret conversation.

Definition apredict (post : Http.transport) (self : GroqVisionModel) (p : params)
  (conversation : ref) : M ref :=
  data <-- apredict_begin self p conversation ;;
  apredict_resume (_make_request post self data) conversation.

(** The body of the [for] loop of [stream] and [astream], from the line read
    to the [yield]: [Some] is the fragment to yield with the accumulator
    after [+=], [None] is a line that yields nothing. The handler catches
    [json.JSONDecodeError] and nothing else. *)
Definition on_line (line : string) (message_content : string)
  : result (option (value * string)) :=
  let json_str := str_remove line "data: " in
  let attempt :=
    if truthy (PStr json_str) then
      chunk <- json_loads json_str ;;
      c <- getitem_str chunk "choices" ;;
      c0 <- getitem_int c 0 ;;
      d <- getitem_str c0 "delta" ;;
      if truthy d then
        c' <- getitem_str chunk "choices" ;;
        c0' <- getitem_int c' 0 ;;
        d' <- getitem_str c0' "delta" ;;
        delta <- getitem_str d' "content" ;;
        message_content' <- str_iadd message_content delta ;;
        Ok (Some (delta, message_content'))
      else Ok None
    else Ok None in
  match attempt with
  | Raise JSONDecodeError => Ok None
  | r => r
  end.

(** [stream] from a point of its loop to the next [yield], or to the
    [add_message] after the loop, or to an exception. *)
Fixpoint stream_loop (conversation : ref) (rest : list string)
  (broken : option exn) (message_content : string) (st : store)
  : event * generator * store :=
  match rest with
  | line :: rest' =>
      match on_line line message_content with
      | Ok (Some (delta, message_content')) =>
          (Yield delta, Suspended rest' broken message_content', st)
      | Ok None => stream_loop conversation rest' broken message_content st
      | Raise e => (Raised e, Finished, st)
      end
  | [] =>
      match broken with
      | Some e => (Raised e, Finished, st)
      | None =>
          match (message <-- lift (AgentMessage (PStr message_content) None) ;;
                 add_message conversation message) st with
          | (Ok _, st') => (StopIteration, Finished, st')
          | (Raise e, st') => (Raised e, Finished, st')
          end
      end
  end.

(** One [next()] on the generator that [stream(conversation, ...)] returned.
    The body starts running at the first [next()]. *)
Definition stream (post : Http.transport) (self : GroqVisionModel) (p : params)
  (conversation : ref) (g : generator) (st : store) : event * generator * store :=
  match g with
  | Created =>
      match (h <-- history conversation ;;
             formatted_messages <-- lift (_format_messages h) ;;
             let data := request_data self p formatted_messages true in
             response <-- lift (post {| Http.url := _api_url;
                                        Http.headers := request_headers self;
                                        Http.json := data; Http.stream := true |}) ;;
             _ <-- lift (Http.raise_for_status response) ;;
             ret response) st with
      | (Ok response, st') =>
          stream_loop conversation (Http.lines response)
            (Http.lines_error response) EmptyString st'
      | (Raise e, st') => (Raised e, Finished, st')
      end
  | Suspended rest broken message_content =>
      stream_loop conversation rest broken message_content st
  | Finished => (StopIteration, Finished, st)
  end.

(** The loop of [astream] over the lines of a body that was read in full:
    [aiter_lines] has no transport failure left to raise. Its [add_message]
    follows the [async with]. *)
Fixpoint astream_loop (conversation : ref) (rest : list string)
  (message_content : string) (st : store) : event * generator * store :=
  match rest with
  | line :: rest' =>
      match on_line line message_content with
      | Ok (Some (delta, message_content')) =>
          (Yield delta, Suspended rest' None message_content', st)
      | Ok None => astream_loop conversation rest' message_content st
      | Raise e => (Raised e, Finished, st)
      end
  | [] =>
      match (message <-- lift (AgentMessage (PStr message_content) None) ;;
             add_message conversation message) st with
      | (Ok _, st') => (StopIteration, Finished, st')
      | (Raise e, st') => (Raised e, Finished, st')
      end
  end.

(** One [__anext__()] on the asynchronous generator of [astream]. The request
    is [client.post] of [httpx] without streaming, and the status is checked
    by [httpx]. *)
Definition astream (post : Http.transport) (self : GroqVisionModel) (p : params)
  (conversation : ref) (g : generator) (st : store) : event * generator * store :=
  match g with
  | Created =>
      match (h <-- history conversation ;;
             formatted_messages <-- lift (_format_messages h) ;;
             let data := request_data self p formatted_messages true in
             response <-- lift (Http.httpx_post post
                                  {| Http.url := _api_url;
                                     Http.headers := request_headers self;
                                     Http.json := data; Http.stream := false |}) ;;
             _ <-- lift (Http.httpx_raise_for_status response) ;;
             ret response) st with
      | (Ok response, st') =>
          astream_loop conversation (Http.lines response) EmptyString st'
      | (Raise e, st') => (Raised e, Finished, st')
      end
  | Suspended rest _ message_content =>
      astream_loop conversation rest message_content st
  | Finished => (StopIteration, Finished, st)
  end.

(** [close()], also what dropping the generator does: GeneratorExit is raised
    at the [yield], no handler of the body catches it, and the statements
    after the loop do not run. *)
Definition close (g : generator) (st : store) : generator * store :=
  (Finished, st).

(** A consumer that asks for at most [n] items: the fragments received, the
    event that ended the iteration ([None] when the consumer stopped asking
    while the generator could still go on), and the generator left behind. *)
Fixpoint consume (next : generator -> store -> event * generator * store)
  (n : nat) (g : generator) (st : store)
  : list value * option event * generator * store :=
  match n with
  | O => ([], None, g, st)
  | S n' =>
      match next g st with
      | (Yield v, g', st') =>
          let '(vs, ev, g'', st'') := consume next n' g' st' in
          (v :: vs, ev, g'', st'')
      | (ev, g', st') => ([], Some ev, g', st')
      end
  end.

(** [batch]: the [i]-th call of [predict] is answered by [network i]. *)
Fixpoint batch_loop (network : nat -> Http.transport) (self : GroqVisionModel)
  (p : params) (i : nat) (conversations : list ref) (results : list ref)
  : M (list ref) :=
  match conversations with
  | [] => ret results
  | conversation :: rest =>
      result_conversation <-- predict (network i) self p conversation ;;
      batch_loop network self p (S i) rest (results ++ [result_conversation])%list
  end.

Definition batch (network : nat -> Http.transport) (self : GroqVisionModel)
  (p : params) (conversations : list ref) : M (list ref) :=
  batch_loop network self p 0 conversations [].

(** [abatch]. The event loop is single-threaded; the only thing it does not
    decide is the order in which the threads of [asyncio.to_thread] finish.

    [start_waiting]: every task waiting for the semaphore, in arrival order, while a
    permit is left ([async with semaphore]), runs [apredict] to its
    suspension point. A task that raises before it is done at once, and
    leaving the [async with] gives its permit back. *)
Fixpoint start_waiting (self : GroqVisionModel) (p : params) (ts : list (ref * phase))
  (permits : nat) (st : store) (seen : option exn)
  : list (ref * phase) * nat * store * option exn :=
  match ts with
  | [] => ([], permits, st, seen)
  | (conv, Queued) :: ts' =>
      match permits with
      | O => (ts, permits, st, seen)
      | S k =>
          match apredict_begin self p conv st with
          | (Ok data, st') =>
              let '(ts'', k', st'', seen') := start_waiting self p ts' k st' seen in
              ((conv, InFlight data) :: ts'', k', st'', seen')
          | (Raise e, st') =>
              let '(ts'', k', st'', seen') :=
                start_waiting self p ts' (S k) st' (note seen e) in
              ((conv, Done (Raise e)) :: ts'', k', st'', seen')
          end
      end
  | t :: ts' =>
      let '(ts'', k', st'', seen') := start_waiting self p ts' permits st seen in
      (t :: ts'', k', st'', seen')
  end.

(** The thread of task [i] finishes: the task resumes [apredict] with the
    reply, runs to its end, releases the semaphore, and the waiters that now
    get a permit start. A waiter woken by the release starts before the next
    completion is handled; the loop may run it after completions that arrive
    in the same iteration, which changes what it reads only when two tasks
    share one Conversation. A completion named for a task that is not in
    flight does nothing. *)
Definition complete (network : nat -> Http.transport) (self : GroqVisionModel)
  (p : params) (l : loop) (i : nat) : loop :=
  match nth_error (tasks l) i with
  | Some (conv, InFlight data) =>
      let '(r, st') :=
        apredict_resume (_make_request (network i) self data) conv (heap l) in
      let seen := match r with
                  | Raise e => note (first_exception l) e
                  | Ok _ => first_exception l
                  end in
      let '(ts', k, st'', seen') :=
        start_waiting self p (set_nth i (conv, Done r) (tasks l)) (S (permits l)) st' seen in
      {| tasks := ts'; permits := k; heap := st''; first_exception := seen' |}
  | _ => l
  end.

(** [asyncio.gather] on the tasks, without [return_exceptions]: the first exception
    of a task is raised to the awaiting caller, the other tasks are not
    cancelled; the list of results, in the order of the arguments, is
    returned once every task has returned. *)
Definition gather (l : loop) : awaited (list ref) :=
  match first_exception l with
  | Some e => Raising e
  | None =>
      match results_of (tasks l) with
      | Some rs => Returned rs
      | None => Pending
      end
  end.

Definition abatch_start (self : GroqVisionModel) (p : params)
  (conversations : list ref) (max_concurrent : nat) (st : store) : loop :=
  let '(ts, k, st', seen) :=
    start_waiting self p (map (fun conv => (conv, Queued)) conversations)
      max_concurrent st None in
  {| tasks := ts; permits := k; heap := st'; first_exception := seen |}.

(** [abatch] after the threads named by [schedule] have finished, in that
    order: what the awaiting caller has got, and the store. *)
Definition abatch (network : nat -> Http.transport) (self : GroqVisionModel)
  (p : params) (conversations : list ref) (max_concurrent : nat)
  (schedule : list nat) (st : store) : awaited (list ref) * store :=
  let l := fold_left (complete network self p) schedule
             (abatch_start self p conversations max_concurrent st) in
  (gather l, heap l).

End Groq.

(** ** Usage accounting

    The class UsageData is not among the sources. Sections 3 and 9 of the
    spec call the validation of the source permissive (lenient), and section
    4.3 says what lenient means: an absent field defaults to absent and the
    operation still succeeds. *)
Section Usage.

(** How the class reads a count that is present in the mapping (its
    conversion to an integer), which the spec does not describe. *)
Variable read_count : value -> result (option Z).

(** Modelled from the spec: the reading of one count of the mapping; a count
    the provider did not send is absent (sections 3, 4.3 and 9). *)
Definition token_count (d : list (string * value)) (k : string)
  : result (option Z) :=
  match dict_get d k with
  | Some v => read_count v
  | None => Ok None
  end.

(** Modelled from the spec: [UsageData.model_validate], whose class is not
    among the sources. Section 3: the record of the three token counts is
    parsed from a provider-supplied mapping; section 4.3: it is produced, or
    validation fails with an error. *)
Definition UsageData_model_validate (usage_data : value) : result UsageData :=
  match usage_data with
  | PDict d =>
      p <- token_count d "prompt_tokens" ;;
      c <- token_count d "completion_tokens" ;;
      t <- token_count d "total_tokens" ;;
      Ok {| prompt_tokens := p; completion_tokens := c; total_tokens := t |}
  | _ => Raise ValidationError
  end.

End Usage.

(** ** VoyageEmbedding *)

Module Voyage.

Definition _allowed_models : list string :=
  ["voyage-2"; "voyage-large-2"; "voyage-code-2"; "voyage-lite-02-instruct"].

Definition _api_url : string := "https://api.voyageai.com/v1/embeddings".

Record VoyageEmbedding : Type := {
  model : string;
  _headers : list (string * string)
}.

(** Computations that may call the network and may raise: the state is the
    log of the requests issued so far. *)
Definition W (A : Type) : Type := list Http.request -> result A * list Http.request.

Definition wret {A} (a : A) : W A := fun log => (Ok a, log).

Definition wbind {A B} (m : W A) (k : A -> W B) : W B :=
  fun log =>
    match m log with
    | (Ok a, log') => k a log'
    | (Raise e, log') => (Raise e, log')
    end.

Definition wlift {A} (r : result A) : W A := fun log => (r, log).

(** [requests.post]: the request goes out, then the transport answers. *)
Definition requests_post (post : Http.transport) (req : Http.request)
  : W Http.response :=
  fun log => (post req, (log ++ [req])%list).

(** [try: body except ...: raise ValueError(...)] with a handler that maps
    the exceptions it catches. *)
Definition wcatch {A} (body : W A) (handler : exn -> exn) : W A :=
  fun log =>
    match body log with
    | (Raise e, log') => (Raise (handler e), log')
    | r => r
    end.

Notation "x <~ m ;; k" := (wbind m (fun x => k))
  (at level 61, m at next level, right associativity).

(** [for item in v]: what iterating a decoded JSON value gives. *)
Definition iterate (v : value) : result (list value) :=
  match v with
  | PList l => Ok l
  | PDict d => Ok (map (fun kv => PStr (fst kv)) d)
  | PStr s => Ok (map (fun c => PStr (String c EmptyString)) (list_ascii_of_string s))
  | _ => Raise TypeError
  end.

Section Adapter.

(** The keyword arguments and [EmbeddingBase.__init__], the class [Vector]
    and its constructor, and [str(e)]: none is among the sources. *)
Variable kwargs : Type.
Variable EmbeddingBase_init : kwargs -> result unit.
Variable Vector : Type.
Variable Vector_new : value -> result Vector.
Variable describe : exn -> string.

Definition __init__ (api_key : string) (model : string) (kw : kwargs)
  : W VoyageEmbedding :=
  _ <~ wlift (EmbeddingBase_init kw) ;;
  if negb (existsb (String.eqb model) _allowed_models)
  then wlift (Raise (ValueError ("Invalid model '" ++ model
                                   ++ "'. Allowed models are: "
                                   ++ String.concat ", " _allowed_models)))
  else wret {| model := model;
               _headers := [("Content-Type", "application/json");
                            ("Authorization", "Bearer " ++ api_key)] |}.

(** The two [except] clauses of [transform]: request exceptions, then
    [KeyError] and [ValueError] with its subclasses. *)
Definition transform_handler (e : exn) : exn :=
  match e with
  | ConnectionError | HTTPError _ | JSONDecodeError =>
      ValueError ("Error calling Voyage AI API: " ++ describe e)
  | KeyError _ | ValueError _ | ValidationError =>
      ValueError ("Error processing Voyage AI API response: " ++ describe e)
  | _ => e
  end.

Definition transform (post : Http.transport) (self : VoyageEmbedding)
  (data : list string) : W (list Vector) :=
  match data with
  | [] => wret []
  | _ =>
      let payload := PDict [("input", PList (map PStr data));
                            ("model", PStr (model self))] in
      wcatch
        (response <~ requests_post post
                       {| Http.url := _api_url; Http.headers := _headers self;
                          Http.json := payload; Http.stream := false |} ;;
         _ <~ wlift (Http.raise_for_status response) ;;
         result <~ wlift (Http.response_json response) ;;
         wlift (d <- getitem_str result "data" ;;
                items <- iterate d ;;
                mapM (fun item => e <- getitem_str item "embedding" ;; Vector_new e)
                     items))
        transform_handler
  end.

Definition infer_vector (post : Http.transport) (self : VoyageEmbedding)
  (data : string) : W (list Vector) :=
  transform post self [data].

End Adapter.

Arguments __init__ {kwargs} EmbeddingBase_init api_key model kw.
Arguments transform {Vector} Vector_new describe post self data.
Arguments infer_vector {Vector} Vector_new describe post self data.

(** The request of [transform] for the texts [data]. *)
Definition embedding_request (self : VoyageEmbedding) (data : list string)
  : Http.request :=
  {| Http.url := _api_url; Http.headers := _headers self;
     Http.json := PDict [("input", PList (map PStr data));
                         ("model", PStr (model self))];
     Http.stream := false |}.

End Voyage.

(** ** Sample adapters, transports and lines *)

Definition groq : GroqVisionModel := {| api_key := "gsk"; name := default_name |}.

(** The default parameters: temperature 0.7 and top_p 1.0 as binary64
    numbers, max_tokens 256, no JSON mode, no stop sequence. *)
Definition defaults : params :=
  {| temperature := S754_finite false 6305039478318694 (-53);
     max_tokens := 256;
     top_p := S754_finite false 4503599627370496 (-52);
     enable_json := false; stop := None |}.

Definition empty_store : store := fun _ => [].

(** A transport whose response has status 200 and the given lines. *)
Definition serving (ls : list string) : Http.transport :=
  fun _ => Ok {| Http.status_code := 200;
                 Http.response_json := Raise JSONDecodeError;
                 Http.lines := ls; Http.lines_error := None |}.

(** A transport whose response has status 200 and the given document. *)
Definition answering (doc : value) : Http.transport :=
  fun _ => Ok {| Http.status_code := 200; Http.response_json := Ok doc;
                 Http.lines := []; Http.lines_error := None |}.

Definition unreachable : Http.transport := fun _ => Raise ConnectionError.

Definition refusing (status : Z) : Http.transport :=
  fun _ => Ok {| Http.status_code := status;
                 Http.response_json := Raise JSONDecodeError;
                 Http.lines := []; Http.lines_error := None |}.

(** The event line of a text delta. *)
Definition delta_line (text : string) : string :=
  json_text ("data: {'choices':[{'index':0,'delta':{'content':'" ++ text ++ "'}}]}").

(** A chat completion document, with and without its usage mapping. *)
Definition completion_without_usage (text : string) : value :=
  PDict [("id", PStr "chatcmpl-1");
         ("choices",
          PList [PDict [("index", PInt 0);
                        ("message", PDict [("role", PStr "assistant");
                                           ("content", PStr text)])]])].

Definition completion (text : string) : value :=
  match completion_without_usage text with
  | PDict d =>
      PDict (dict_set d "usage"
               (PDict [("prompt_tokens", PInt 7); ("completion_tokens", PInt 3);
                       ("total_tokens", PInt 10)]))
  | v => v
  end.

(** Five requests of which the third finds no connection. *)
Definition third_fails (i : nat) : Http.transport :=
  if Nat.eqb i 2 then unreachable else answering (completion "ok").

Definition assistant (text : string) (usage : option UsageData) : Message :=
  {| msg_role := "assistant"; msg_name := None;
     msg_content := Text text; msg_usage := usage |}.

Definition sample_usage : UsageData :=
  {| prompt_tokens := Some 7%Z; completion_tokens := Some 3%Z;
     total_tokens := Some 10%Z |}.

(** The record of a mapping that holds none of the three counts. *)
Definition absent_usage : UsageData :=
  {| prompt_tokens := None; completion_tokens := None; total_tokens := None |}.

(** A reader of the counts for the examples, all of which carry integers:
    an integer is the count, null is an absent count. *)
Definition integer_count (v : value) : result (option Z) :=
  match v with
  | PInt n => Ok (Some n)
  | PNone => Ok None
  | _ => Raise ValidationError
  end.

(** A transport whose response has the given status and document. *)
Definition answering_with (status : Z) (doc : value) : Http.transport :=
  fun _ => Ok {| Http.status_code := status; Http.response_json := Ok doc;
                 Http.lines := []; Http.lines_error := None |}.

(** A transport whose response has the given status and lines. *)
Definition serving_with (status : Z) (ls : list string) : Http.transport :=
  fun _ => Ok {| Http.status_code := status;
                 Http.response_json := Raise JSONDecodeError;
                 Http.lines := ls; Http.lines_error := None |}.

(** A transport whose body breaks off with [e] after the lines [ls]. *)
Definition breaking (ls : list string) (e : exn) : Http.transport :=
  fun _ => Ok {| Http.status_code := 200;
                 Http.response_json := Raise JSONDecodeError;
                 Http.lines := ls; Http.lines_error := Some e |}.

(** ** Predicates of the statements *)

(** Every history of [st'] continues the history [st] has for the same
    conversation. *)
Definition extends (st st' : store) : Prop :=
  forall r, exists added, st' r = (st r ++ added)%list.

(** The line goes through the loop body without an exception. *)
Definition accepted (json_loads : string -> result value) (line : string) : bool :=
  match on_line json_loads line EmptyString with
  | Ok _ => true
  | Raise _ => false
  end.

(** What joining the fragments with the empty separator gives. *)
Definition text_of (v : value) : string :=
  match v with
  | PStr s => s
  | _ => EmptyString
  end.

Definition join (fragments : list value) : string :=
  fold_right (fun v acc => text_of v ++ acc) EmptyString fragments.

Definition is_str (v : value) : Prop := exists t, v = PStr t.

(** What a consumer and the rest of the program see of a consumption: the
    fragments, the event that ended it and the store. *)
Definition observed (run : list value * option event * generator * store)
  : list value * option event * store :=
  let '(fragments, ev, _, st) := run in (fragments, ev, st).

(** The store is as it was, or one message was appended to the history of
    [conversation]. *)
Definition appends_at_most_one (st : store) (conversation : ref) (st' : store)
  : Prop :=
  st' = st
  \/ exists message,
       st' = upd st conversation (st conversation ++ [message])%list.

(** The transport fails: no connection, or a status that
    [raise_for_status] rejects. *)
Definition transport_fails (post : Http.transport) : Prop :=
  (exists e, forall req, post req = Raise e)
  \/ (exists response,
        (forall req, post req = Ok response)
        /\ (400 <= Http.status_code response < 600)%Z).

(** The transport delivers a document from which the completion text cannot
    be read. *)
Definition lacks_fields (post : Http.transport) : Prop :=
  exists response doc e,
    (forall req, post req = Ok response)
    /\ Http.raise_for_status response = Ok tt
    /\ Http.response_json response = Ok doc
    /\ completion_text doc = Raise e.

(** A typed content block: a dict, so its keys are distinct, with a [type]
    entry. *)
Definition keys (d : list (string * value)) : list string := map fst d.

Definition typed_block (b : list (string * value)) : Prop :=
  NoDup (keys b) /\ exists t, dict_get b "type" = Some t.

Definition typed_message (m : Message) : Prop :=
  match msg_content m with
  | Text _ => True
  | Blocks items => Forall typed_block items
  end.

(** Two dicts with the same value, or none, under every key. *)
Definition same_entries (d d' : list (string * value)) : Prop :=
  forall k, dict_get d k = dict_get d' k.

(** The wire form of a content, and of a message: only the keys [content],
    [role] and [name]; the role; the name, or no [name] key at all; the text,
    or the blocks in order, each with all its entries. *)
Definition wire_content (c : content) (v : value) : Prop :=
  match c with
  | Text s => v = PStr s
  | Blocks items =>
      exists items', v = PList (map PDict items') /\ Forall2 same_entries items items'
  end.

Definition wire_record (m : Message) (record : list (string * value)) : Prop :=
  (forall k, In k (keys record) -> k = "content" \/ k = "role" \/ k = "name")
  /\ dict_get record "role" = Some (PStr (msg_role m))
  /\ dict_get record "name" = option_map PStr (msg_name m)
  /\ exists v, dict_get record "content" = Some v /\ wire_content (msg_content m) v.

(** The three token counts, and the field of the record that holds each. *)
Definition required_counts : list string :=
  ["prompt_tokens"; "completion_tokens"; "total_tokens"].

Definition count_of (u : UsageData) (k : string) : option Z :=
  if String.eqb k "prompt_tokens" then prompt_tokens u
  else if String.eqb k "completion_tokens" then completion_tokens u
  else if String.eqb k "total_tokens" then total_tokens u
  else None.

(** The number of finished tasks of [abatch] that work on conversation [r]. *)
Fixpoint done_on (r : ref) (ts : list (ref * phase)) : nat :=
  match ts with
  | [] => 0
  | (c, Done _) :: ts' => (if Nat.eqb c r then 1 else 0) + done_on r ts'
  | _ :: ts' => done_on r ts'
  end.

(** What starting the waiting tasks does to one task: nothing, or a waiting
    task is now in flight, or a waiting task has failed. *)
Inductive starts : ref * phase -> ref * phase -> Prop :=
| starts_same t : starts t t
| starts_flight c data : starts (c, Queued) (c, InFlight data)
| starts_failed c e : starts (c, Queued) (c, Done (Raise e)).

(** The invariant of the loop: the conversations of the tasks do not change,
    every history continues the one the call started with, and has grown by
    no more than one message per finished task on that conversation. *)
Definition loop_grows (st0 : store) (conversations : list ref) (l : loop) : Prop :=
  map fst (tasks l) = conversations
  /\ extends st0 (heap l)
  /\ forall r, length (heap l r) <= length (st0 r) + done_on r (tasks l).


(** [chunk["choices"][0]["delta"]] *)
Definition delta_of (chunk : value) : result value :=
  c <- getitem_str chunk "choices" ;;
  c0 <- getitem_int c 0 ;;
  getitem_str c0 "delta".

(** The number of tasks of [abatch] that hold a permit of the semaphore. *)
Fixpoint in_flight (ts : list (ref * phase)) : nat :=
  match ts with
  | [] => 0
  | (_, InFlight _) :: ts' => S (in_flight ts')
  | _ :: ts' => in_flight ts'
  end.

(** The request of [predict] and [apredict] for a formatted history. *)
Definition unary_request (self : GroqVisionModel) (p : params)
  (formatted_messages : list (list (string * value))) : Http.request :=
  {| Http.url := _api_url; Http.headers := request_headers self;
     Http.json := request_data self p formatted_messages false;
     Http.stream := false |}.

(** The usage mapping [predict] hands to the validation:
    [result.get("usage", {})]. *)
Definition usage_of (doc : list (string * value)) : value :=
  match dict_get doc "usage" with
  | Some v => v
  | None => PDict []
  end.

(** A history with a content block that has no [type] entry. *)
Definition untyped_history (h : list Message) : Prop :=
  exists message items b,
    In message h /\ msg_content message = Blocks items
    /\ In b items /\ dict_get b "type" = None.

(** What a stream over [lines] yields when it is read to its end: the
    fragment of every line that has one, up to the first line that raises,
    and that exception. The accumulator plays no part. *)
Fixpoint emitted (json_loads : string -> result value) (lines : list string)
  : list value * option exn :=
  match lines with
  | [] => ([], None)
  | line :: rest =>
      match on_line json_loads line EmptyString with
      | Ok (Some (d, _)) =>
          let '(fragments, e) := emitted json_loads rest in (d :: fragments, e)
      | Ok None => emitted json_loads rest
      | Raise e => ([], Some e)
      end
  end.

(** A block with its [type] entry moved to the front. *)
Definition type_first (b : list (string * value)) (t : value)
  : list (string * value) :=
  ("type", t) :: filter (fun kv => negb (String.eqb (fst kv) "type")) b.

(** Every finished task of the loop returned its own conversation. *)
Definition returns_own (ts : list (ref * phase)) : Prop :=
  Forall (fun t => forall r, snd t = Done (Ok r) -> r = fst t) ts.

(** No task of the loop waits while a permit is free. *)
Fixpoint queued (ts : list (ref * phase)) : nat :=
  match ts with
  | [] => 0
  | (_, Queued) :: ts' => S (queued ts')
  | _ :: ts' => queued ts'
  end.

(** What a consumer that reads a stream to its end gets, and the store it
    leaves: the fragments, then the exception of the line that raised or of
    the transport that broke off, or else the end of the iteration with the
    joined fragments appended as one assistant message. *)
Definition read_to_end (json_loads : string -> result value) (lines : list string)
  (broken : option exn) (conversation : ref) (st : store)
  : list value * option event * generator * store :=
  let '(fragments, e) := emitted json_loads lines in
  match e, broken with
  | Some e, _ => (fragments, Some (Raised e), Finished, st)
  | None, Some e => (fragments, Some (Raised e), Finished, st)
  | None, None =>
      (fragments, Some StopIteration, Finished,
       upd st conversation
         (st conversation ++ [assistant (join fragments) None])%list)
  end.

(** [old in s] for strings: [old] starts at some position of [s]. *)
Fixpoint occurs (old s : string) : bool :=
  String.prefix old s
  || match s with
     | String _ s' => occurs old s'
     | EmptyString => false
     end.

(** A task of the loop that raised has been noted as the exception, or
    after the exception, that [gather] raises. *)
Definition failures_noted (ts : list (ref * phase)) (seen : option exn) : Prop :=
  Forall (fun t => forall e, snd t = Done (Raise e) -> seen <> None) ts.

(** The state of the loop of [abatch] after the completions of [schedule]. *)
Definition abatch_loop (model_validate : value -> result UsageData)
  (network : nat -> Http.transport) (self : GroqVisionModel) (p : params)
  (conversations : list ref) (max_concurrent : nat) (schedule : list nat)
  (st : store) : loop :=
  fold_left (complete model_validate network self p) schedule
    (abatch_start self p conversations max_concurrent st).

(** The number of finished tasks of the loop. *)
Fixpoint finished (ts : list (ref * phase)) : nat :=
  match ts with
  | [] => 0
  | (_, Done _) :: ts' => S (finished ts')
  | _ :: ts' => finished ts'
  end.

(** * Properties *)

(** ** The store and the monad *)

Lemma extends_refl st : extends st st.
Proof. intros r. exists []. now rewrite app_nil_r. Qed.

Lemma extends_trans st1 st2 st3 :
  extends st1 st2 -> extends st2 st3 -> extends st1 st3.
Proof.
  intros H12 H23 r.
  destruct (H12 r) as [a Ha], (H23 r) as [b Hb].
  exists (a ++ b)%list. now rewrite Hb, Ha, app_assoc.
Qed.

Lemma upd_same st r h : upd st r h r = h.
Proof. unfold upd. now rewrite Nat.eqb_refl. Qed.

Lemma upd_other st r h r' : r' <> r -> upd st r h r' = st r'.
Proof.
  intros Hne. unfold upd.
  destruct (Nat.eqb_spec r' r); [contradiction | reflexivity].
Qed.

Lemma extends_add st r m : extends st (upd st r (st r ++ [m])%list).
Proof.
  intros r'. destruct (Nat.eq_dec r' r) as [-> | Hne].
  - exists [m]. apply upd_same.
  - exists []. rewrite upd_other by assumption. now rewrite app_nil_r.
Qed.

(** ** predict and apredict: one append, as the last step *)

Lemma apredict_resume_cases model_validate reply conversation st :
  (exists e, apredict_resume model_validate reply conversation st = (Raise e, st))
  \/ (exists message,
        apredict_resume model_validate reply conversation st
        = (Ok conversation, upd st conversation (st conversation ++ [message])%list)).
Proof.
  unfold apredict_resume, mbind, lift, add_message, ret, _prepare_usage_data.
  destruct reply as [result | e]; [| left; eauto].
  destruct (completion_text result) as [message_content | e]; [| left; eauto].
  destruct (dict_method_get result "usage" (PDict [])) as [usage_data | e];
    [| left; eauto].
  destruct (model_validate usage_data) as [usage | e]; [| left; eauto].
  destruct (AgentMessage message_content (Some usage)) as [message | e];
    [| left; eauto].
  right. eauto.
Qed.

Lemma apredict_begin_pure self p conversation st :
  snd (apredict_begin self p conversation st) = st.
Proof.
  unfold apredict_begin, mbind, history, lift, ret.
  now destruct (_format_messages (st conversation)).
Qed.

Lemma apredict_unfold model_validate post self p conversation st :
  apredict model_validate post self p conversation st
  = match _format_messages (st conversation) with
    | Ok fm =>
        apredict_resume model_validate
          (_make_request post self (request_data self p fm false)) conversation st
    | Raise e => (Raise e, st)
    end.
Proof.
  unfold apredict, apredict_begin, mbind, history, lift, ret.
  now destruct (_format_messages (st conversation)).
Qed.

Lemma predict_unfold model_validate post self p conversation st :
  predict model_validate post self p conversation st
  = match _format_messages (st conversation) with
    | Ok fm =>
        apredict_resume model_validate
          (_make_request post self (request_data self p fm false)) conversation st
    | Raise e => (Raise e, st)
    end.
Proof.
  unfold predict, apredict_resume, mbind, history, lift, ret.
  now destruct (_format_messages (st conversation)).
Qed.

Lemma predict_apredict model_validate post self p conversation st :
  predict model_validate post self p conversation st
  = apredict model_validate post self p conversation st.
Proof. now rewrite predict_unfold, apredict_unfold. Qed.

Lemma predict_cases model_validate post self p conversation st :
  (exists e, predict model_validate post self p conversation st = (Raise e, st))
  \/ (exists message,
        predict model_validate post self p conversation st
        = (Ok conversation, upd st conversation (st conversation ++ [message])%list)).
Proof.
  rewrite predict_unfold.
  destruct (_format_messages (st conversation)); [| left; eauto].
  apply apredict_resume_cases.
Qed.

(** ** The stream loop *)

Lemma append_empty_r (s : string) : s ++ EmptyString = s.
Proof. induction s as [| c s IH]; simpl; [reflexivity | now rewrite IH]. Qed.

Lemma append_assoc (a b c : string) : (a ++ b) ++ c = a ++ (b ++ c).
Proof. induction a as [| x a IH]; simpl; [reflexivity | now rewrite IH]. Qed.

(** The loop of [astream] is the loop of [stream] over a body that does not
    break off. *)
Lemma astream_loop_eq json_loads conversation rest mc st :
  astream_loop json_loads conversation rest mc st
  = stream_loop json_loads conversation rest None mc st.
Proof.
  revert mc. induction rest as [| line rest IH]; intros mc; simpl; [reflexivity |].
  destruct (on_line json_loads line mc) as [[[d mc'] |] | e]; auto.
Qed.

(** The accumulator only enters the result of the loop body as the left
    operand of [+=]. *)
Lemma on_line_accumulates json_loads line mc :
  on_line json_loads line mc
  = match on_line json_loads line EmptyString with
    | Ok (Some (d, t)) => Ok (Some (d, mc ++ t))
    | Ok None => Ok None
    | Raise e => Raise e
    end.
Proof.
  unfold on_line.
  destruct (truthy (PStr (str_remove line "data: "))); [| reflexivity].
  destruct (json_loads (str_remove line "data: ")) as [chunk | e]; simpl;
    [| now destruct e].
  destruct (getitem_str chunk "choices") as [c | e]; simpl; [| now destruct e].
  destruct (getitem_int c 0) as [c0 | e]; simpl; [| now destruct e].
  destruct (getitem_str c0 "delta") as [d | e]; simpl; [| now destruct e].
  destruct (truthy d); [| reflexivity].
  destruct (getitem_str d "content") as [delta | e]; simpl; [| now destruct e].
  destruct delta; simpl; reflexivity.
Qed.

(** A yielded fragment is a string, and the accumulator grows by it. *)
Lemma on_line_yields_text json_loads line mc d mc' :
  on_line json_loads line mc = Ok (Some (d, mc')) ->
  exists t, d = PStr t /\ mc' = mc ++ t.
Proof.
  unfold on_line.
  destruct (truthy (PStr (str_remove line "data: "))); [| discriminate].
  destruct (json_loads (str_remove line "data: ")) as [chunk | e]; simpl;
    [| destruct e; discriminate].
  destruct (getitem_str chunk "choices") as [c | e]; simpl;
    [| destruct e; discriminate].
  destruct (getitem_int c 0) as [c0 | e]; simpl; [| destruct e; discriminate].
  destruct (getitem_str c0 "delta") as [d0 | e]; simpl;
    [| destruct e; discriminate].
  destruct (truthy d0); [| discriminate].
  destruct (getitem_str d0 "content") as [delta | e]; simpl;
    [| destruct e; discriminate].
  destruct delta; simpl; try discriminate.
  intros H. injection H as <- <-. eauto.
Qed.

Lemma accepted_on_line json_loads line mc :
  accepted json_loads line = true ->
  on_line json_loads line mc = Ok None
  \/ exists t, on_line json_loads line mc = Ok (Some (PStr t, mc ++ t)).
Proof.
  unfold accepted. intros Hacc.
  destruct (on_line json_loads line mc) as [[[d mc'] |] | e] eqn:Hmc.
  - right. destruct (on_line_yields_text _ _ _ _ _ Hmc) as (t & -> & ->). eauto.
  - now left.
  - rewrite on_line_accumulates in Hmc.
    destruct (on_line json_loads line EmptyString) as [[[d t] |] | e'];
      discriminate.
Qed.

(** The first [next()] of a stream whose request went through enters the
    loop with an empty accumulator. *)
Lemma stream_opens json_loads post self p conversation st response :
  (exists fm, _format_messages (st conversation) = Ok fm) ->
  (forall req, post req = Ok response) ->
  Http.raise_for_status response = Ok tt ->
  stream json_loads post self p conversation Created st
  = stream_loop json_loads conversation (Http.lines response)
      (Http.lines_error response) EmptyString st.
Proof.
  intros [fm Hfm] Hpost Hstatus.
  unfold stream, mbind, history, lift, ret.
  now rewrite Hfm, Hpost, Hstatus.
Qed.

(** The first [__anext__()] of an [astream] whose body was read in full and
    whose status [httpx] accepts enters the loop in the same way. *)
Lemma astream_opens json_loads post self p conversation st response :
  (exists fm, _format_messages (st conversation) = Ok fm) ->
  (forall req, post req = Ok response) ->
  Http.lines_error response = None ->
  Http.httpx_raise_for_status response = Ok tt ->
  astream json_loads post self p conversation Created st
  = stream_loop json_loads conversation (Http.lines response) None EmptyString st.
Proof.
  intros [fm Hfm] Hpost Hclean Hstatus.
  unfold astream, mbind, history, lift, ret, Http.httpx_post.
  rewrite Hfm, Hpost. cbn [bind]. rewrite Hclean, Hstatus. apply astream_loop_eq.
Qed.

(** A body that broke off raises at the first [__anext__()]. *)
Lemma astream_body_breaks json_loads post self p conversation st response e :
  (exists fm, _format_messages (st conversation) = Ok fm) ->
  (forall req, post req = Ok response) ->
  Http.lines_error response = Some e ->
  astream json_loads post self p conversation Created st = (Raised e, Finished, st).
Proof.
  intros [fm Hfm] Hpost Hbroken.
  unfold astream, mbind, history, lift, ret, Http.httpx_post.
  rewrite Hfm, Hpost. cbn [bind]. now rewrite Hbroken.
Qed.

Lemma stream_loop_yields_on json_loads conversation rest broken :
  forall mc st v g st',
    stream_loop json_loads conversation rest broken mc st = (Yield v, g, st') ->
    exists rest' mc', g = Suspended rest' broken mc'.
Proof.
  induction rest as [| line rest IH]; intros mc st v g st'; simpl.
  - destruct broken; [discriminate |].
    unfold mbind, lift, add_message; simpl. discriminate.
  - destruct (on_line json_loads line mc) as [[[d mc'] |] | e].
    + intros H. inversion H. eauto.
    + apply IH.
    + discriminate.
Qed.

(** Two generators that answer the next request alike are consumed alike. *)
Lemma consume_first next n g1 g2 st :
  next g1 st = next g2 st ->
  consume next (S n) g1 st = consume next (S n) g2 st.
Proof. intros H. simpl. now rewrite H. Qed.

(** A suspended [astream] goes on like a suspended [stream] whose body does
    not break off, whatever the transports of the two are. *)
Lemma consume_astream_suspended json_loads post post' self p conversation :
  forall n rest mc st,
    consume (astream json_loads post self p conversation) n
      (Suspended rest None mc) st
    = consume (stream json_loads post' self p conversation) n
        (Suspended rest None mc) st.
Proof.
  induction n as [| n IH]; intros rest mc st; [reflexivity |].
  cbn [consume astream stream]. rewrite astream_loop_eq.
  destruct (stream_loop json_loads conversation rest None mc st)
    as [[ev g] st'] eqn:Hstep.
  destruct ev as [v | |]; try reflexivity.
  destruct (stream_loop_yields_on _ _ _ _ _ _ _ _ _ Hstep) as (rest' & mc' & ->).
  now rewrite IH.
Qed.


Section Exhaust.

Variable json_loads : string -> result value.
Variable next : generator -> store -> event * generator * store.
Variable conversation : ref.
Hypothesis next_suspended :
  forall rest broken mc st,
    next (Suspended rest broken mc) st
    = stream_loop json_loads conversation rest broken mc st.

(** A consumer that keeps asking gets every fragment and then the end of the
    iteration, at which the accumulated text is appended. *)
Lemma exhaust_suspended rest :
  forall mc st n,
    forallb (accepted json_loads) rest = true ->
    length rest < n ->
    exists fragments,
      consume next n (Suspended rest None mc) st
      = (fragments, Some StopIteration, Finished,
         upd st conversation
           (st conversation ++ [assistant (mc ++ join fragments) None])%list)
      /\ Forall is_str fragments.
Proof.
  induction rest as [| line rest IH]; intros mc st n Hacc Hlen.
  - destruct n as [| n]; [inversion Hlen |].
    exists []. split; [| constructor].
    simpl. rewrite next_suspended. simpl. now rewrite append_empty_r.
  - simpl in Hacc. apply andb_prop in Hacc as [Hline Hrest].
    destruct n as [| n]; [inversion Hlen |]. simpl in Hlen.
    destruct (accepted_on_line json_loads line mc Hline) as [Hnone | [t Hsome]].
    + destruct (IH mc st (S n) Hrest) as (fragments & Hrun & Hstr); [lia |].
      exists fragments. split; [| assumption].
      rewrite <- Hrun. apply consume_first.
      rewrite !next_suspended. simpl. now rewrite Hnone.
    + destruct (IH (mc ++ t) st n Hrest) as (fragments & Hrun & Hstr); [lia |].
      exists (PStr t :: fragments). split.
      * simpl. rewrite next_suspended. simpl. rewrite Hsome, Hrun.
        simpl. now rewrite append_assoc.
      * constructor; [now exists t | assumption].
Qed.

End Exhaust.

(** C1 (amended). After a request that went through (the history could be
    formatted, the transport answered with a status that the
    [raise_for_status] of the operation accepts, which for [stream] is any
    status outside 400..599 and for [astream] a 2xx status, and the body
    ended without a transport exception), and for every finite sequence of
    lines none of which raises in the loop body, [stream] and [astream]
    consumed to exhaustion append exactly one assistant message, and its
    content is the concatenation, in emission order, of the fragments
    yielded, all of which are strings; with no fragment at all the one
    message has the empty string as content. *)
Theorem stream_commits_what_it_emitted :
  forall json_loads post self p conversation st response n,
    (exists fm, _format_messages (st conversation) = Ok fm) ->
    (forall req, post req = Ok response) ->
    Http.lines_error response = None ->
    forallb (accepted json_loads) (Http.lines response) = true ->
    length (Http.lines response) < n ->
    (Http.raise_for_status response = Ok tt ->
     exists fragments,
       consume (stream json_loads post self p conversation) n Created st
       = (fragments, Some StopIteration, Finished,
          upd st conversation
            (st conversation ++ [assistant (join fragments) None])%list)
       /\ Forall is_str fragments)
    /\ (Http.httpx_raise_for_status response = Ok tt ->
        exists fragments,
          consume (astream json_loads post self p conversation) n Created st
          = (fragments, Some StopIteration, Finished,
             upd st conversation
               (st conversation ++ [assistant (join fragments) None])%list)
          /\ Forall is_str fragments).
Proof.
  intros json_loads post self p conversation st response n
    Hfm Hpost Hclean Hacc Hlen.
  destruct n as [| n]; [inversion Hlen |].
  destruct (exhaust_suspended json_loads
              (stream json_loads post self p conversation) conversation
              (fun _ _ _ _ => eq_refl) (Http.lines response)
              EmptyString st (S n) Hacc Hlen) as (fragments & Hrun & Hstr).
  cbn [append] in Hrun.
  split; intros Hstatus; exists fragments; (split; [| assumption]).
  - rewrite <- Hrun. apply consume_first.
    rewrite (stream_opens json_loads post self p conversation st response)
      by assumption.
    now rewrite Hclean.
  - rewrite <- Hrun. cbn [consume].
    rewrite (astream_opens json_loads post self p conversation st response)
      by assumption.
    cbn [stream].
    destruct (stream_loop json_loads conversation (Http.lines response) None
                EmptyString st) as [[ev g] st'] eqn:Hstep.
    destruct ev as [v | |]; try reflexivity.
    destruct (stream_loop_yields_on _ _ _ _ _ _ _ _ _ Hstep) as (rest' & mc' & ->).
    now rewrite (consume_astream_suspended json_loads post post).
Qed.

Lemma stream_commits_what_it_emitted_witness :
  (exists fragments,
     consume (stream Json.loads
                (serving [delta_line "A"; "garbage"; delta_line "B"; "data: [DONE]"])
                groq defaults 0) 5 Created empty_store
     = (fragments, Some StopIteration, Finished,
        upd empty_store 0 (empty_store 0 ++ [assistant (join fragments) None])%list)
     /\ Forall is_str fragments)
  /\ (exists fragments,
        consume (astream Json.loads
                   (serving [delta_line "A"; "garbage"; delta_line "B"; "data: [DONE]"])
                   groq defaults 0) 5 Created empty_store
        = (fragments, Some StopIteration, Finished,
           upd empty_store 0 (empty_store 0 ++ [assistant (join fragments) None])%list)
        /\ Forall is_str fragments).
Proof.
  destruct (stream_commits_what_it_emitted Json.loads
              (serving [delta_line "A"; "garbage"; delta_line "B"; "data: [DONE]"])
              groq defaults 0 empty_store
              {| Http.status_code := 200;
                 Http.response_json := Raise JSONDecodeError;
                 Http.lines := [delta_line "A"; "garbage"; delta_line "B";
                                "data: [DONE]"];
                 Http.lines_error := None |} 5) as [Hs Ha].
  - exists []. reflexivity.
  - intros req. reflexivity.
  - reflexivity.
  - vm_compute. reflexivity.
  - simpl. lia.
  - split; [apply Hs | apply Ha]; reflexivity.
Defined.

(** C1, as stated, fails: an event line that is valid JSON without a
    [choices] entry ends the stream with a KeyError after the fragment ["A"]
    was yielded, and no message is appended. *)
Lemma stream_error_event_commits_nothing :
  consume (stream Json.loads
             (serving [delta_line "A";
                       json_text "data: {'error':{'message':'overloaded'}}"])
             groq defaults 0) 3 Created empty_store
  = ([PStr "A"], Some (Raised (KeyError (PStr "choices"))), Finished, empty_store)
  /\ consume (astream Json.loads
                (serving [delta_line "A";
                          json_text "data: {'error':{'message':'overloaded'}}"])
                groq defaults 0) 3 Created empty_store
     = ([PStr "A"], Some (Raised (KeyError (PStr "choices"))), Finished, empty_store).
Proof. split; vm_compute; reflexivity. Qed.

(** ** Abandoned streams *)

Lemma stream_loop_yield_pure json_loads conversation rest broken :
  forall mc st v g st',
    stream_loop json_loads conversation rest broken mc st = (Yield v, g, st') ->
    st' = st.
Proof.
  induction rest as [| line rest IH]; intros mc st v g st'; simpl.
  - destruct broken; [discriminate |].
    unfold mbind, lift, add_message; simpl. discriminate.
  - destruct (on_line json_loads line mc) as [[[d mc'] |] | e].
    + intros H. now inversion H.
    + apply IH.
    + discriminate.
Qed.

Lemma stream_yield_pure json_loads post self p conversation g st v g' st' :
  stream json_loads post self p conversation g st = (Yield v, g', st') ->
  st' = st.
Proof.
  destruct g as [| rest broken mc |]; simpl.
  - unfold mbind, history, lift, ret.
    destruct (_format_messages (st conversation)); [| discriminate].
    destruct (post _) as [response |]; [| discriminate].
    destruct (Http.raise_for_status response); [| discriminate].
    apply stream_loop_yield_pure.
  - apply stream_loop_yield_pure.
  - discriminate.
Qed.

Lemma astream_yield_pure json_loads post self p conversation g st v g' st' :
  astream json_loads post self p conversation g st = (Yield v, g', st') ->
  st' = st.
Proof.
  destruct g as [| rest broken mc |]; simpl.
  - unfold mbind, history, lift, ret, Http.httpx_post.
    destruct (_format_messages (st conversation)); [| discriminate].
    destruct (post _) as [response |]; [| discriminate].
    cbn [bind]. destruct (Http.lines_error response); [discriminate |].
    destruct (Http.httpx_raise_for_status response); [| discriminate].
    rewrite astream_loop_eq. apply stream_loop_yield_pure.
  - rewrite astream_loop_eq. apply stream_loop_yield_pure.
  - discriminate.
Qed.

(** A consumer that stops asking has only seen yields, and no yield wrote to
    the store. *)
Lemma consume_abandoned next :
  (forall g st v g' st', next g st = (Yield v, g', st') -> st' = st) ->
  forall n g st fragments g' st',
    consume next n g st = (fragments, None, g', st') -> st' = st.
Proof.
  intros Hpure. induction n as [| n IH]; intros g st fragments g' st'; simpl.
  - intros H. now inversion H.
  - destruct (next g st) as [[ev g1] st1] eqn:Hnext.
    destruct ev as [v | |]; try discriminate.
    destruct (consume next n g1 st1) as [[[vs ev'] g2] st2] eqn:Hrest.
    intros H. inversion H; subst.
    apply Hpure in Hnext. apply IH in Hrest. congruence.
Qed.

(** C2. A consumer that asks a [stream] (or an [astream]) for any number of
    fragments and abandons it while it has not finished leaves every
    Conversation as it was, whether the generator is then closed or dropped:
    the append after the loop is not reached. *)
Theorem abandoned_stream_appends_nothing :
  forall json_loads post self p conversation st n fragments g st',
    (consume (stream json_loads post self p conversation) n Created st
     = (fragments, None, g, st') ->
     st' = st /\ snd (close g st') = st)
    /\ (consume (astream json_loads post self p conversation) n Created st
        = (fragments, None, g, st') ->
        st' = st /\ snd (close g st') = st).
Proof.
  intros json_loads post self p conversation st n fragments g st'.
  split; intros Hrun.
  - apply consume_abandoned in Hrun.
    + now subst.
    + intros g0 st0 v g1 st1. apply stream_yield_pure.
  - apply consume_abandoned in Hrun.
    + now subst.
    + intros g0 st0 v g1 st1. apply astream_yield_pure.
Qed.

Lemma abandoned_stream_appends_nothing_witness :
  (consume (stream Json.loads (serving [delta_line "A"; delta_line "B"])
              groq defaults 0) 1 Created empty_store
   = ([PStr "A"], None, Suspended [delta_line "B"] None "A", empty_store))
  /\ empty_store = empty_store
  /\ snd (close (Suspended [delta_line "B"] None "A") empty_store) = empty_store.
Proof.
  split; [vm_compute; reflexivity |].
  apply (proj1 (abandoned_stream_appends_nothing Json.loads
                  (serving [delta_line "A"; delta_line "B"]) groq defaults 0
                  empty_store 1 [PStr "A"]
                  (Suspended [delta_line "B"] None "A") empty_store)).
  vm_compute. reflexivity.
Defined.

(** ** Lines that do not decode *)


Section Skip.

Variable json_loads : string -> result value.
Variable next : generator -> store -> event * generator * store.
Variable conversation : ref.
Hypothesis next_suspended :
  forall rest broken mc st,
    next (Suspended rest broken mc) st
    = stream_loop json_loads conversation rest broken mc st.

Variable line : string.
Hypothesis line_skipped : forall mc, on_line json_loads line mc = Ok None.


End Skip.



(** ** Events without the expected structure *)

Lemma raising_line_aborts json_loads conversation line rest broken mc st e :
  on_line json_loads line mc = Raise e ->
  stream_loop json_loads conversation (line :: rest) broken mc st
  = (Raised e, Finished, st).
Proof. intros H. simpl. now rewrite H. Qed.

Lemma serving_opens json_loads ls self p conversation st :
  (exists fm, _format_messages (st conversation) = Ok fm) ->
  stream json_loads (serving ls) self p conversation Created st
  = stream_loop json_loads conversation ls None EmptyString st
  /\ astream json_loads (serving ls) self p conversation Created st
     = stream_loop json_loads conversation ls None EmptyString st.
Proof.
  intros Hfm. split.
  - now rewrite (stream_opens json_loads (serving ls) self p conversation st
                   _ Hfm (fun _ => eq_refl) eq_refl).
  - now rewrite (astream_opens json_loads (serving ls) self p conversation st
                   _ Hfm (fun _ => eq_refl) eq_refl eq_refl).
Qed.

(** C10. Some lines that are valid JSON without the expected event structure
    make [stream] and [astream] raise: an object without a [choices] entry
    (KeyError 'choices') and a delta that is a non-empty object without a
    [content] entry (KeyError 'content'). The exception reaches the consumer
    at the first request for a fragment, the generator is finished, and
    nothing was appended, whatever lines follow. *)
Theorem shape_errors_abort_the_stream :
  forall self p conversation st rest n,
    (exists fm, _format_messages (st conversation) = Ok fm) ->
    consume (stream Json.loads
               (serving (json_text "data: {'id':'chatcmpl-1'}" :: rest))
               self p conversation) (S n) Created st
    = ([], Some (Raised (KeyError (PStr "choices"))), Finished, st)
    /\ consume (stream Json.loads
                  (serving (json_text "data: {'choices':[{'delta':{'role':'assistant'}}]}"
                              :: rest))
                  self p conversation) (S n) Created st
       = ([], Some (Raised (KeyError (PStr "content"))), Finished, st)
    /\ consume (astream Json.loads
                  (serving (json_text "data: {'id':'chatcmpl-1'}" :: rest))
                  self p conversation) (S n) Created st
       = ([], Some (Raised (KeyError (PStr "choices"))), Finished, st)
    /\ consume (astream Json.loads
                  (serving (json_text "data: {'choices':[{'delta':{'role':'assistant'}}]}"
                              :: rest))
                  self p conversation) (S n) Created st
       = ([], Some (Raised (KeyError (PStr "content"))), Finished, st).
Proof.
  intros self p conversation st rest n Hfm.
  repeat split; cbn [consume].
  - rewrite (proj1 (serving_opens _ _ _ _ _ _ Hfm)).
    erewrite raising_line_aborts; [reflexivity | vm_compute; reflexivity].
  - rewrite (proj1 (serving_opens _ _ _ _ _ _ Hfm)).
    erewrite raising_line_aborts; [reflexivity | vm_compute; reflexivity].
  - rewrite (proj2 (serving_opens _ _ _ _ _ _ Hfm)).
    erewrite raising_line_aborts; [reflexivity | vm_compute; reflexivity].
  - rewrite (proj2 (serving_opens _ _ _ _ _ _ Hfm)).
    erewrite raising_line_aborts; [reflexivity | vm_compute; reflexivity].
Qed.

Lemma shape_errors_abort_the_stream_witness :
  consume (stream Json.loads
             (serving (json_text "data: {'id':'chatcmpl-1'}" :: [delta_line "A"]))
             groq defaults 0) 2 Created empty_store
  = ([], Some (Raised (KeyError (PStr "choices"))), Finished, empty_store)
  /\ consume (stream Json.loads
                (serving (json_text "data: {'choices':[{'delta':{'role':'assistant'}}]}"
                            :: [delta_line "A"]))
                groq defaults 0) 2 Created empty_store
     = ([], Some (Raised (KeyError (PStr "content"))), Finished, empty_store)
  /\ consume (astream Json.loads
                (serving (json_text "data: {'id':'chatcmpl-1'}" :: [delta_line "A"]))
                groq defaults 0) 2 Created empty_store
     = ([], Some (Raised (KeyError (PStr "choices"))), Finished, empty_store)
  /\ consume (astream Json.loads
                (serving (json_text "data: {'choices':[{'delta':{'role':'assistant'}}]}"
                            :: [delta_line "A"]))
                groq defaults 0) 2 Created empty_store
     = ([], Some (Raised (KeyError (PStr "content"))), Finished, empty_store).
Proof.
  apply (shape_errors_abort_the_stream groq defaults 0 empty_store
           [delta_line "A"] 1).
  exists []. reflexivity.
Defined.

(** ** Error paths of the unary operations *)

Lemma make_request_transport_fails post self data :
  transport_fails post -> exists e, _make_request post self data = Raise e.
Proof.
  unfold _make_request.
  intros [[e Hdown] | (response & Hpost & Hlo & Hhi)].
  - rewrite Hdown. simpl. eauto.
  - rewrite Hpost. simpl. unfold Http.raise_for_status.
    apply Z.leb_le in Hlo. apply Z.ltb_lt in Hhi. rewrite Hlo, Hhi. simpl. eauto.
Qed.

Lemma make_request_delivers post self data response doc :
  (forall req, post req = Ok response) ->
  Http.raise_for_status response = Ok tt ->
  Http.response_json response = Ok doc ->
  _make_request post self data = Ok doc.
Proof.
  intros Hpost Hstatus Hdoc. unfold _make_request.
  now rewrite Hpost; simpl; rewrite Hstatus; simpl.
Qed.

Lemma apredict_resume_raises model_validate reply conversation st :
  (exists e, reply = Raise e)
  \/ (exists doc e, reply = Ok doc /\ completion_text doc = Raise e) ->
  exists e, apredict_resume model_validate reply conversation st = (Raise e, st).
Proof.
  unfold apredict_resume, mbind, lift.
  intros [[e ->] | (doc & e & -> & Hdoc)].
  - eauto.
  - rewrite Hdoc. eauto.
Qed.

(** C4 (amended). When the transport fails (no connection, or a status from
    400 to 599, the statuses that the [raise_for_status] of [requests]
    rejects) or the document lacks the fields of the completion text,
    [predict] and [apredict] raise and the store is as it was; and on every
    path on which they raise, nothing was appended. *)
Theorem unary_errors_leave_the_conversation :
  forall model_validate post self p conversation st,
    (transport_fails post \/ lacks_fields post ->
     (exists e, predict model_validate post self p conversation st = (Raise e, st))
     /\ (exists e, apredict model_validate post self p conversation st = (Raise e, st)))
    /\ (forall e,
          fst (predict model_validate post self p conversation st) = Raise e ->
          snd (predict model_validate post self p conversation st) = st)
    /\ (forall e,
          fst (apredict model_validate post self p conversation st) = Raise e ->
          snd (apredict model_validate post self p conversation st) = st).
Proof.
  intros model_validate post self p conversation st.
  rewrite <- predict_apredict.
  assert (Herr : forall e,
             fst (predict model_validate post self p conversation st) = Raise e ->
             snd (predict model_validate post self p conversation st) = st).
  { intros e.
    destruct (predict_cases model_validate post self p conversation st)
      as [[e' ->] | [message ->]]; simpl; [reflexivity | discriminate]. }
  split; [| split; exact Herr].
  intros Hfail.
  assert (exists e, predict model_validate post self p conversation st = (Raise e, st))
    as Hraise; [| split; exact Hraise].
  rewrite predict_unfold.
  destruct (_format_messages (st conversation)) as [fm | e]; [| eauto].
  apply apredict_resume_raises.
  destruct Hfail as [Hdown | (response & doc & e & Hpost & Hstatus & Hdoc & Htext)].
  - left. now apply make_request_transport_fails.
  - right. exists doc, e. split; [| assumption].
    now apply make_request_delivers with response.
Qed.

Lemma unary_errors_leave_the_conversation_witness :
  ((exists e, predict (UsageData_model_validate integer_count) unreachable groq defaults 0 empty_store
              = (Raise e, empty_store))
   /\ (exists e, apredict (UsageData_model_validate integer_count) unreachable groq defaults 0 empty_store
                 = (Raise e, empty_store)))
  /\ ((exists e, predict (UsageData_model_validate integer_count) (refusing 503) groq defaults 0 empty_store
                 = (Raise e, empty_store))
      /\ (exists e, apredict (UsageData_model_validate integer_count) (refusing 503) groq defaults 0
                      empty_store
                    = (Raise e, empty_store)))
  /\ ((exists e, predict (UsageData_model_validate integer_count)
                   (answering (PDict [("choices", PList [])])) groq defaults 0 empty_store
                 = (Raise e, empty_store))
      /\ (exists e, apredict (UsageData_model_validate integer_count)
                      (answering (PDict [("choices", PList [])])) groq defaults 0
                      empty_store
                    = (Raise e, empty_store)))
  /\ snd (predict (UsageData_model_validate integer_count) unreachable groq defaults 0 empty_store)
     = empty_store
  /\ snd (apredict (UsageData_model_validate integer_count) unreachable groq defaults 0 empty_store)
     = empty_store.
Proof.
  split; [| split; [| split; [| split]]].
  - apply (proj1 (unary_errors_leave_the_conversation (UsageData_model_validate integer_count)
                    unreachable groq defaults 0 empty_store)).
    left. left. exists ConnectionError. intros req. reflexivity.
  - apply (proj1 (unary_errors_leave_the_conversation (UsageData_model_validate integer_count)
                    (refusing 503) groq defaults 0 empty_store)).
    left. right. eexists. split; [intros req; reflexivity |]. simpl. lia.
  - apply (proj1 (unary_errors_leave_the_conversation (UsageData_model_validate integer_count)
                    (answering (PDict [("choices", PList [])])) groq defaults 0
                    empty_store)).
    right. do 3 eexists.
    split; [intros req; reflexivity |]. repeat split; reflexivity.
  - apply (proj1 (proj2 (unary_errors_leave_the_conversation
                           (UsageData_model_validate integer_count) unreachable groq defaults 0
                           empty_store)) ConnectionError).
    reflexivity.
  - apply (proj2 (proj2 (unary_errors_leave_the_conversation
                           (UsageData_model_validate integer_count) unreachable groq defaults 0
                           empty_store)) ConnectionError).
    reflexivity.
Defined.

(** C4, as stated, fails: a status that is not a success and that [requests]
    does not count as an error (here 300, with a well-formed document) is not
    a transport failure for [predict] and [apredict], which return with the
    message appended. *)
Lemma status_below_400_is_no_error :
  Http.raise_for_status
    {| Http.status_code := 300; Http.response_json := Ok (completion "ok");
       Http.lines := []; Http.lines_error := None |} = Ok tt
  /\ predict (UsageData_model_validate integer_count)
       (answering_with 300 (completion "ok")) groq defaults 0 empty_store
     = (Ok 0, upd empty_store 0 [assistant "ok" (Some sample_usage)])
  /\ apredict (UsageData_model_validate integer_count)
       (answering_with 300 (completion "ok")) groq defaults 0 empty_store
     = (Ok 0, upd empty_store 0 [assistant "ok" (Some sample_usage)]).
Proof. repeat split. Qed.


(** ** The message formatter *)

Lemma dict_get_set d k v k' :
  dict_get (dict_set d k v) k' = if String.eqb k k' then Some v else dict_get d k'.
Proof.
  induction d as [| [k0 v0] d IH]; simpl.
  - reflexivity.
  - destruct (String.eqb_spec k0 k) as [-> | Hne]; simpl.
    + now destruct (String.eqb k k').
    + rewrite IH. destruct (String.eqb_spec k0 k') as [-> | Hne'].
      * destruct (String.eqb_spec k k'); [congruence | reflexivity].
      * reflexivity.
Qed.

Lemma dict_get_absent d k : ~ In k (keys d) -> dict_get d k = None.
Proof.
  induction d as [| [k0 v0] d IH]; simpl; intros Hnot; [reflexivity |].
  destruct (String.eqb_spec k0 k) as [-> | Hne]; [tauto |].
  apply IH. tauto.
Qed.

(** [{**d, **e}] reads [e] first, then [d]. *)
Lemma dict_get_update e :
  NoDup (keys e) ->
  forall d k,
    dict_get (dict_update d e) k
    = match dict_get e k with
      | Some v => Some v
      | None => dict_get d k
      end.
Proof.
  unfold dict_update.
  induction e as [| [k0 v0] e IH]; intros Hnodup d k; simpl; [reflexivity |].
  inversion Hnodup as [| ? ? Hnotin Hrest]; subst.
  rewrite (IH Hrest), dict_get_set.
  destruct (String.eqb_spec k0 k) as [-> | Hne]; [| reflexivity].
  now rewrite (dict_get_absent e k Hnotin).
Qed.

Lemma retag_typed b :
  typed_block b ->
  exists b', retag (PDict b) = Ok (PDict b') /\ same_entries b b'.
Proof.
  intros [Hnodup [t Ht]]. unfold retag. simpl. rewrite Ht. simpl.
  eexists. split; [reflexivity |].
  intros k. rewrite (dict_get_update b Hnodup).
  destruct (dict_get b k) eqn:Hk; [reflexivity |].
  change (dict_get [("type", t)] k)
    with (if String.eqb "type" k then Some t else None).
  destruct (String.eqb_spec "type" k) as [<- | Hne]; [congruence | reflexivity].
Qed.

Lemma retag_all items :
  Forall typed_block items ->
  exists items',
    mapM retag (map PDict items) = Ok (map PDict items')
    /\ Forall2 same_entries items items'.
Proof.
  induction 1 as [| b items Hb Hitems (items' & Hmap & Hsame)].
  - exists []. split; [reflexivity | constructor].
  - destruct (retag_typed b Hb) as (b' & Hretag & Hentries).
    exists (b' :: items'). split; [| now constructor].
    simpl. rewrite Hretag. simpl. rewrite Hmap. reflexivity.
Qed.

Lemma format_message_typed m :
  typed_message m ->
  exists record, format_message m = Ok record /\ wire_record m record.
Proof.
  destruct m as [role name content usage].
  unfold typed_message, format_message, model_dump, wire_record; simpl.
  destruct content as [s | items]; intros Htyped.
  - eexists. split; [reflexivity |].
    destruct name; simpl; repeat split; eauto; intuition (subst; auto).
  - destruct (retag_all items Htyped) as (items' & Hmap & Hsame).
    rewrite Hmap. simpl.
    eexists. split; [reflexivity |].
    destruct name; simpl; repeat split; eauto; intuition (subst; auto).
Qed.

(** A block without a [type] entry stops the formatter with a KeyError. *)
Example format_untyped_block :
  _format_messages
    [{| msg_role := "user"; msg_name := None;
        msg_content := Blocks [[("text", PStr "hi")]]; msg_usage := None |}]
  = Raise (KeyError (PStr "type")).
Proof. reflexivity. Qed.

(** C8. For every sequence of messages with typed content blocks the
    formatter returns, without touching its input, one wire record per
    message, in order; a record has no key besides [content], [role] and
    [name], carries the role, carries the name or, for a [None] name, no
    [name] key at all, and carries the text, or the blocks in order, each
    with its [type] entry and every other entry it had. A message with the
    one block [{type: "text", text: "hi"}] and no name gives a record with the
    keys [content] and [role] only. *)
Theorem format_messages_wire_shape :
  (forall messages,
     Forall typed_message messages ->
     exists records,
       _format_messages messages = Ok records
       /\ Forall2 wire_record messages records)
  /\ _format_messages
       [{| msg_role := "user"; msg_name := None;
           msg_content := Blocks [[("type", PStr "text"); ("text", PStr "hi")]];
           msg_usage := None |}]
     = Ok [[("content", PList [PDict [("type", PStr "text"); ("text", PStr "hi")]]);
            ("role", PStr "user")]].
Proof.
  split; [| reflexivity].
  unfold _format_messages.
  induction 1 as [| m messages Hm Hmessages (records & Hmap & Hwire)].
  - exists []. split; [reflexivity | constructor].
  - destruct (format_message_typed m Hm) as (record & Hformat & Hrecord).
    exists (record :: records). split; [| now constructor].
    simpl. rewrite Hformat. simpl. rewrite Hmap. reflexivity.
Qed.

Lemma format_messages_wire_shape_witness :
  exists records,
    _format_messages
      [{| msg_role := "user"; msg_name := Some "ann";
          msg_content :=
            Blocks [[("type", PStr "text"); ("text", PStr "what is this?")];
                    [("type", PStr "image_url");
                     ("image_url", PDict [("url", PStr "https://example.org/a.png")])]];
          msg_usage := None |};
       assistant "a cat" (Some sample_usage)]
    = Ok records
    /\ Forall2 wire_record
         [{| msg_role := "user"; msg_name := Some "ann";
             msg_content :=
               Blocks [[("type", PStr "text"); ("text", PStr "what is this?")];
                       [("type", PStr "image_url");
                        ("image_url", PDict [("url", PStr "https://example.org/a.png")])]];
             msg_usage := None |};
          assistant "a cat" (Some sample_usage)]
         records.
Proof.
  apply (proj1 format_messages_wire_shape).
  repeat constructor; simpl; try (intuition discriminate); eauto.
Defined.

(** ** Usage accounting *)

Lemma token_count_absent read_count d k :
  dict_get d k = None -> token_count read_count d k = Ok None.
Proof. intros H. unfold token_count. now rewrite H. Qed.

Lemma token_count_present read_count d k v :
  dict_get d k = Some v -> token_count read_count d k = read_count v.
Proof. intros H. unfold token_count. now rewrite H. Qed.

(** Validation succeeds exactly when each of the three counts can be read,
    and the record holds what was read. *)
Lemma model_validate_fields read_count d u :
  UsageData_model_validate read_count (PDict d) = Ok u
  <-> token_count read_count d "prompt_tokens" = Ok (prompt_tokens u)
      /\ token_count read_count d "completion_tokens" = Ok (completion_tokens u)
      /\ token_count read_count d "total_tokens" = Ok (total_tokens u).
Proof.
  unfold UsageData_model_validate. destruct u as [a b c]. cbn [prompt_tokens
    completion_tokens total_tokens].
  destruct (token_count read_count d "prompt_tokens") as [a' | e]; cbn [bind];
    [| split; [discriminate | intros (H & _); discriminate]].
  destruct (token_count read_count d "completion_tokens") as [b' | e]; cbn [bind];
    [| split; [discriminate | intros (_ & H & _); discriminate]].
  destruct (token_count read_count d "total_tokens") as [c' | e]; cbn [bind];
    [| split; [discriminate | intros (_ & _ & H); discriminate]].
  split.
  - intros H. injection H as <- <- <-. auto.
  - intros (Ha & Hb & Hc). congruence.
Qed.

Lemma model_validate_raises read_count d k e :
  In k required_counts ->
  token_count read_count d k = Raise e ->
  exists e', UsageData_model_validate read_count (PDict d) = Raise e'.
Proof.
  intros Hk Hbad.
  destruct (UsageData_model_validate read_count (PDict d)) as [u |] eqn:Hu;
    [| eauto].
  apply model_validate_fields in Hu as (Ha & Hb & Hc).
  simpl in Hk. destruct Hk as [<- | [<- | [<- | []]]]; congruence.
Qed.

(** What [predict] does with the document once the request went through. *)
Lemma predict_delivered model_validate post self p conversation st fm response doc :
  _format_messages (st conversation) = Ok fm ->
  (forall req, post req = Ok response) ->
  Http.raise_for_status response = Ok tt ->
  Http.response_json response = Ok doc ->
  predict model_validate post self p conversation st
  = apredict_resume model_validate (Ok doc) conversation st.
Proof.
  intros Hfm Hpost Hstatus Hdoc.
  rewrite predict_unfold, Hfm.
  now rewrite (make_request_delivers post self _ response doc).
Qed.

(** C9 (amended). Against the permissive validation that the spec ascribes
    to the source. A count that is present and cannot be read fails the
    validation, and then [predict] and [apredict] raise with nothing
    appended. A count that is missing does not: it is absent from the
    record, which holds for each count exactly what was read from the
    mapping, never a number the mapping does not hold. A response without a
    usage mapping has the empty mapping validated, which gives the record
    with no count, and [predict] and [apredict] append the message that
    carries it. *)
Theorem usage_validation_is_lenient :
  forall read_count,
    (forall d k v e,
       In k required_counts -> dict_get d k = Some v -> read_count v = Raise e ->
       (exists e', UsageData_model_validate read_count (PDict d) = Raise e')
       /\ forall post self p conversation st response doc,
            (forall req, post req = Ok response) ->
            Http.raise_for_status response = Ok tt ->
            Http.response_json response = Ok (PDict doc) ->
            dict_get doc "usage" = Some (PDict d) ->
            exists e',
              predict (UsageData_model_validate read_count) post self p
                conversation st = (Raise e', st)
              /\ apredict (UsageData_model_validate read_count) post self p
                   conversation st = (Raise e', st))
    /\ (forall d u,
          UsageData_model_validate read_count (PDict d) = Ok u ->
          forall k,
            In k required_counts ->
            match dict_get d k with
            | Some v => read_count v = Ok (count_of u k)
            | None => count_of u k = None
            end)
    /\ (forall d,
          (forall k, In k required_counts -> dict_get d k = None) ->
          UsageData_model_validate read_count (PDict d) = Ok absent_usage)
    /\ (forall post self p conversation st fm response doc text,
          _format_messages (st conversation) = Ok fm ->
          (forall req, post req = Ok response) ->
          Http.raise_for_status response = Ok tt ->
          Http.response_json response = Ok (PDict doc) ->
          completion_text (PDict doc) = Ok (PStr text) ->
          dict_get doc "usage" = None ->
          predict (UsageData_model_validate read_count) post self p conversation st
          = (Ok conversation,
             upd st conversation
               (st conversation ++ [assistant text (Some absent_usage)])%list)
          /\ apredict (UsageData_model_validate read_count) post self p
               conversation st
             = (Ok conversation,
                upd st conversation
                  (st conversation ++ [assistant text (Some absent_usage)])%list)).
Proof.
  intros read_count. split; [| split; [| split]].
  - intros d k v e Hk Hget Hread.
    assert (Hfail : exists e', UsageData_model_validate read_count (PDict d)
                               = Raise e').
    { apply model_validate_raises with k e; [assumption |].
      now rewrite (token_count_present read_count d k v). }
    split; [assumption |].
    intros post self p conversation st response doc Hpost Hstatus Hdoc Husage.
    rewrite <- predict_apredict.
    assert (exists e', predict (UsageData_model_validate read_count) post self p
                         conversation st = (Raise e', st)) as [e' Hrun];
      [| exists e'; now split].
    destruct (_format_messages (st conversation)) as [fm | e0] eqn:Hfm.
    + rewrite (predict_delivered _ post self p conversation st fm response
                 (PDict doc)) by assumption.
      unfold apredict_resume, mbind, lift, _prepare_usage_data.
      destruct (completion_text (PDict doc)) as [text | e0]; [| eauto].
      cbn [dict_method_get]. rewrite Husage.
      destruct Hfail as [e' ->]. eauto.
    + rewrite predict_unfold, Hfm. eauto.
  - intros d u Hu k Hk.
    apply model_validate_fields in Hu as (Ha & Hb & Hc).
    unfold token_count in Ha, Hb, Hc.
    simpl in Hk. destruct Hk as [<- | [<- | [<- | []]]].
    + change (count_of u "prompt_tokens") with (prompt_tokens u).
      destruct (dict_get d "prompt_tokens"); congruence.
    + change (count_of u "completion_tokens") with (completion_tokens u).
      destruct (dict_get d "completion_tokens"); congruence.
    + change (count_of u "total_tokens") with (total_tokens u).
      destruct (dict_get d "total_tokens"); congruence.
  - intros d Hmissing. apply model_validate_fields. unfold absent_usage.
    cbn [prompt_tokens completion_tokens total_tokens].
    repeat split; apply token_count_absent, Hmissing; simpl; auto.
  - intros post self p conversation st fm response doc text
      Hfm Hpost Hstatus Hdoc Htext Husage.
    rewrite <- predict_apredict.
    assert (predict (UsageData_model_validate read_count) post self p
              conversation st
            = (Ok conversation,
               upd st conversation
                 (st conversation ++ [assistant text (Some absent_usage)])%list))
      as Hrun; [| now split].
    rewrite (predict_delivered _ post self p conversation st fm response
               (PDict doc)) by assumption.
    unfold apredict_resume, mbind, lift, _prepare_usage_data, add_message, ret.
    rewrite Htext. cbn [dict_method_get]. rewrite Husage. reflexivity.
Qed.

Lemma usage_validation_is_lenient_witness :
  ((exists e,
      UsageData_model_validate integer_count
        (PDict [("prompt_tokens", PInt 7); ("total_tokens", PList [])])
      = Raise e)
   /\ exists e,
        predict (UsageData_model_validate integer_count)
          (answering (PDict [("choices", PList [PDict [("message", PDict [("content", PStr "hi")])]]);
                             ("usage", PDict [("prompt_tokens", PInt 7);
                                              ("total_tokens", PList [])])]))
          groq defaults 0 empty_store = (Raise e, empty_store)
        /\ apredict (UsageData_model_validate integer_count)
             (answering (PDict [("choices", PList [PDict [("message", PDict [("content", PStr "hi")])]]);
                                ("usage", PDict [("prompt_tokens", PInt 7);
                                                 ("total_tokens", PList [])])]))
             groq defaults 0 empty_store = (Raise e, empty_store))
  /\ integer_count (PInt 3) = Ok (count_of sample_usage "completion_tokens")
  /\ UsageData_model_validate integer_count (PDict [("queue_time", PInt 1)])
     = Ok absent_usage
  /\ predict (UsageData_model_validate integer_count)
       (answering (completion_without_usage "hello")) groq defaults 0 empty_store
     = (Ok 0, upd empty_store 0
                (empty_store 0 ++ [assistant "hello" (Some absent_usage)])%list).
Proof.
  split; [| split; [| split]].
  - destruct (proj1 (usage_validation_is_lenient integer_count)
                [("prompt_tokens", PInt 7); ("total_tokens", PList [])]
                "total_tokens" (PList []) ValidationError)
      as [Hfail Hrun]; [simpl; auto | reflexivity | reflexivity |].
    split; [exact Hfail |].
    apply (Hrun (answering (PDict [("choices", PList [PDict [("message", PDict [("content", PStr "hi")])]]);
                                   ("usage", PDict [("prompt_tokens", PInt 7);
                                                    ("total_tokens", PList [])])]))
             groq defaults 0 empty_store
             {| Http.status_code := 200;
                Http.response_json :=
                  Ok (PDict [("choices", PList [PDict [("message", PDict [("content", PStr "hi")])]]);
                             ("usage", PDict [("prompt_tokens", PInt 7);
                                              ("total_tokens", PList [])])]);
                Http.lines := []; Http.lines_error := None |}
             [("choices", PList [PDict [("message", PDict [("content", PStr "hi")])]]);
              ("usage", PDict [("prompt_tokens", PInt 7);
                               ("total_tokens", PList [])])]);
      [intros req; reflexivity | reflexivity | reflexivity | reflexivity].
  - apply (proj1 (proj2 (usage_validation_is_lenient integer_count))
             [("prompt_tokens", PInt 7); ("completion_tokens", PInt 3);
              ("total_tokens", PInt 10)] sample_usage eq_refl "completion_tokens").
    simpl. auto.
  - apply (proj1 (proj2 (proj2 (usage_validation_is_lenient integer_count)))).
    intros k [<- | [<- | [<- | []]]]; reflexivity.
  - apply (proj1 (proj2 (proj2 (proj2 (usage_validation_is_lenient integer_count)))
                    (answering (completion_without_usage "hello")) groq defaults 0
                    empty_store []
                    {| Http.status_code := 200;
                       Http.response_json := Ok (completion_without_usage "hello");
                       Http.lines := []; Http.lines_error := None |}
                    [("id", PStr "chatcmpl-1");
                     ("choices",
                      PList [PDict [("index", PInt 0);
                                    ("message", PDict [("role", PStr "assistant");
                                                       ("content", PStr "hello")])]])]
                    "hello" eq_refl (fun _ => eq_refl) eq_refl eq_refl eq_refl
                    eq_refl)).
Defined.

(** C9, as stated, fails: the empty mapping, which is what [predict] hands
    to the validation for a response without a usage mapping, validates to
    the record with no count, and so does a mapping with one count of the
    three; [predict] and [apredict] return with the message appended. *)
Lemma response_without_usage_is_validated :
  UsageData_model_validate integer_count (PDict []) = Ok absent_usage
  /\ UsageData_model_validate integer_count (PDict [("total_tokens", PInt 10)])
     = Ok {| prompt_tokens := None; completion_tokens := None;
             total_tokens := Some 10%Z |}
  /\ predict (UsageData_model_validate integer_count)
       (answering (completion_without_usage "hello")) groq defaults 0 empty_store
     = (Ok 0, upd empty_store 0 [assistant "hello" (Some absent_usage)])
  /\ apredict (UsageData_model_validate integer_count)
       (answering (completion_without_usage "hello")) groq defaults 0 empty_store
     = (Ok 0, upd empty_store 0 [assistant "hello" (Some absent_usage)]).
Proof. repeat split. Qed.

(** ** The allow-list of VoyageEmbedding *)

Lemma allowed_In (model : string) (l : list string) :
  existsb (String.eqb model) l = true <-> In model l.
Proof.
  rewrite existsb_exists. split.
  - intros (x & Hin & Heq). apply String.eqb_eq in Heq. now subst.
  - intros Hin. exists model. split; [assumption | apply String.eqb_refl].
Qed.

(** [transform] is where the adapter calls the network: a non-empty input
    adds one request to the log, whatever the outcome. *)
Lemma transform_posts Vector (Vector_new : value -> result Vector) describe
  post self text texts log :
  exists req,
    snd (Voyage.transform Vector_new describe post self (text :: texts) log)
    = (log ++ [req])%list.
Proof.
  unfold Voyage.transform, Voyage.wcatch, Voyage.wbind, Voyage.requests_post,
    Voyage.wlift.
  eexists.
  destruct (post _) as [response | e]; [| reflexivity].
  destruct (Http.raise_for_status response); [| reflexivity].
  destruct (Http.response_json response) as [doc | e]; [| reflexivity].
  simpl.
  repeat match goal with
         | |- context [match ?x with _ => _ end] => destruct x
         end; reflexivity.
Qed.

(** C6. Constructing the adapter never calls the network. With a model
    identifier outside the allow-list the construction raises, and what it
    raises, once the base class has accepted the keyword arguments, is the
    ValueError that names the model; with an identifier of the allow-list
    and keyword arguments the base class accepts, the construction returns
    the adapter for that model. *)
Theorem voyage_init_checks_the_allow_list :
  forall (kwargs : Type) (EmbeddingBase_init : kwargs -> result unit)
         (api_key model : string) (kw : kwargs) (log : list Http.request),
    snd (Voyage.__init__ EmbeddingBase_init api_key model kw log) = log
    /\ (~ In model Voyage._allowed_models ->
        (exists e,
           fst (Voyage.__init__ EmbeddingBase_init api_key model kw log) = Raise e)
        /\ (EmbeddingBase_init kw = Ok tt ->
            fst (Voyage.__init__ EmbeddingBase_init api_key model kw log)
            = Raise (ValueError ("Invalid model '" ++ model
                                   ++ "'. Allowed models are: "
                                   ++ "voyage-2, voyage-large-2, voyage-code-2, "
                                   ++ "voyage-lite-02-instruct"))))
    /\ (In model Voyage._allowed_models ->
        EmbeddingBase_init kw = Ok tt ->
        fst (Voyage.__init__ EmbeddingBase_init api_key model kw log)
        = Ok {| Voyage.model := model;
                Voyage._headers := [("Content-Type", "application/json");
                                    ("Authorization", "Bearer " ++ api_key)] |}).
Proof.
  intros kwargs EmbeddingBase_init api_key model kw log.
  pose proof (allowed_In model Voyage._allowed_models) as Hdec.
  unfold Voyage.__init__, Voyage.wbind, Voyage.wlift, Voyage.wret.
  destruct (EmbeddingBase_init kw) as [[] | e0].
  - destruct (existsb (String.eqb model) Voyage._allowed_models);
      cbn [negb fst snd]; (split; [reflexivity | split]).
    + intros Hnot. exfalso. apply Hnot, Hdec. reflexivity.
    + reflexivity.
    + intros _. split; [eauto | intros _; reflexivity].
    + intros Hin. apply Hdec in Hin. discriminate.
  - cbn [fst snd]. split; [reflexivity | split].
    + intros _. split; [eauto | discriminate].
    + discriminate.
Qed.

Lemma voyage_init_checks_the_allow_list_witness :
  ((exists e,
      fst (Voyage.__init__ (fun _ : unit => Ok tt) "pa-key" "voyage-3" tt []) = Raise e)
   /\ fst (Voyage.__init__ (fun _ : unit => Ok tt) "pa-key" "voyage-3" tt [])
      = Raise (ValueError ("Invalid model '" ++ "voyage-3"
                             ++ "'. Allowed models are: "
                             ++ "voyage-2, voyage-large-2, voyage-code-2, "
                             ++ "voyage-lite-02-instruct")))
  /\ fst (Voyage.__init__ (fun _ : unit => Ok tt) "pa-key" "voyage-code-2" tt [])
     = Ok {| Voyage.model := "voyage-code-2";
             Voyage._headers := [("Content-Type", "application/json");
                                 ("Authorization", "Bearer " ++ "pa-key")] |}.
Proof.
  split.
  - assert (Hout : ~ In "voyage-3" Voyage._allowed_models)
      by (simpl; intuition discriminate).
    split.
    + apply (proj1 (proj2 (voyage_init_checks_the_allow_list
                             unit (fun _ : unit => Ok tt) "pa-key" "voyage-3" tt [])));
        assumption.
    + apply (proj1 (proj2 (voyage_init_checks_the_allow_list
                             unit (fun _ : unit => Ok tt) "pa-key" "voyage-3" tt [])));
        [assumption | reflexivity].
  - apply (proj2 (proj2 (voyage_init_checks_the_allow_list
                           unit (fun _ : unit => Ok tt) "pa-key" "voyage-code-2" tt []))).
    + simpl. auto.
    + reflexivity.
Defined.

(** ** Histories only grow *)

Lemma appends_at_most_one_extends st conversation st' :
  appends_at_most_one st conversation st' -> extends st st'.
Proof.
  intros [-> | [message ->]]; [apply extends_refl | apply extends_add].
Qed.

Lemma appends_at_most_one_length st conversation st' r :
  appends_at_most_one st conversation st' ->
  length (st' r) <= length (st r) + (if Nat.eqb conversation r then 1 else 0).
Proof.
  intros [-> | [message ->]]; [lia |].
  destruct (Nat.eqb_spec conversation r) as [<- | Hne].
  - rewrite upd_same, length_app. simpl. lia.
  - rewrite upd_other by congruence. lia.
Qed.

Lemma predict_appends_at_most_one model_validate post self p conversation st :
  appends_at_most_one st conversation
    (snd (predict model_validate post self p conversation st)).
Proof.
  destruct (predict_cases model_validate post self p conversation st)
    as [[e ->] | [message ->]]; [now left | right; exists message; reflexivity].
Qed.

Lemma apredict_resume_appends_at_most_one model_validate reply conversation st :
  appends_at_most_one st conversation
    (snd (apredict_resume model_validate reply conversation st)).
Proof.
  destruct (apredict_resume_cases model_validate reply conversation st)
    as [[e ->] | [message ->]]; [now left | right; exists message; reflexivity].
Qed.

Lemma stream_loop_store json_loads conversation rest broken :
  forall mc st,
    (exists v g, stream_loop json_loads conversation rest broken mc st = (Yield v, g, st))
    \/ appends_at_most_one st conversation
         (snd (stream_loop json_loads conversation rest broken mc st))
       /\ (forall v, fst (fst (stream_loop json_loads conversation rest broken mc st))
                     <> Yield v).
Proof.
  induction rest as [| line rest IH]; intros mc st; simpl.
  - right. destruct broken; simpl.
    + split; [now left | discriminate].
    + split; [right; eauto | discriminate].
  - destruct (on_line json_loads line mc) as [[[d mc'] |] | e].
    + left. eauto.
    + apply IH.
    + right. split; [now left | discriminate].
Qed.

Lemma stream_store json_loads post self p conversation g st :
  (exists v g', stream json_loads post self p conversation g st = (Yield v, g', st))
  \/ appends_at_most_one st conversation
       (snd (stream json_loads post self p conversation g st))
     /\ (forall v, fst (fst (stream json_loads post self p conversation g st))
                   <> Yield v).
Proof.
  destruct g as [| rest broken mc |]; simpl.
  - unfold mbind, history, lift, ret.
    destruct (_format_messages (st conversation));
      [| right; split; [now left | discriminate]].
    destruct (post _) as [response |];
      [| right; split; [now left | discriminate]].
    destruct (Http.raise_for_status response);
      [| right; split; [now left | discriminate]].
    apply stream_loop_store.
  - apply stream_loop_store.
  - right. split; [now left | discriminate].
Qed.

Lemma astream_store json_loads post self p conversation g st :
  (exists v g', astream json_loads post self p conversation g st = (Yield v, g', st))
  \/ appends_at_most_one st conversation
       (snd (astream json_loads post self p conversation g st))
     /\ (forall v, fst (fst (astream json_loads post self p conversation g st))
                   <> Yield v).
Proof.
  destruct g as [| rest broken mc |]; simpl.
  - unfold mbind, history, lift, ret, Http.httpx_post.
    destruct (_format_messages (st conversation));
      [| right; split; [now left | discriminate]].
    destruct (post _) as [response |];
      [| right; split; [now left | discriminate]].
    cbn [bind]. destruct (Http.lines_error response);
      [right; split; [now left | discriminate] |].
    destruct (Http.httpx_raise_for_status response);
      [| right; split; [now left | discriminate]].
    rewrite astream_loop_eq. apply stream_loop_store.
  - rewrite astream_loop_eq. apply stream_loop_store.
  - right. split; [now left | discriminate].
Qed.

(** Whatever the consumer does, a generator that only writes when it stops
    yielding has appended at most one message. *)
Lemma consume_appends_at_most_one next conversation :
  (forall g st,
     (exists v g', next g st = (Yield v, g', st))
     \/ appends_at_most_one st conversation (snd (next g st))
        /\ (forall v, fst (fst (next g st)) <> Yield v)) ->
  forall n g st, appends_at_most_one st conversation (snd (consume next n g st)).
Proof.
  intros Hnext. induction n as [| n IH]; intros g st; simpl; [now left |].
  destruct (Hnext g st) as [(v & g' & Hyield) | [Hone Hstop]].
  - rewrite Hyield. specialize (IH g' st).
    destruct (consume next n g' st) as [[[vs ev] g''] st'']. exact IH.
  - destruct (next g st) as [[ev g'] st']. simpl in *.
    destruct ev as [v | |]; [now destruct (Hstop v) | exact Hone | exact Hone].
Qed.

Lemma batch_loop_grows model_validate network self p conversations :
  forall i results st,
    extends st (snd (batch_loop model_validate network self p i conversations results st))
    /\ forall r,
         length (snd (batch_loop model_validate network self p i conversations
                        results st) r)
         <= length (st r) + count_occ Nat.eq_dec conversations r.
Proof.
  induction conversations as [| conversation rest IH]; intros i results st.
  - simpl. split; [apply extends_refl | intros r; lia].
  - cbn [batch_loop]. unfold mbind.
    pose proof (predict_appends_at_most_one model_validate (network i) self p
                  conversation st) as Hone.
    destruct (predict model_validate (network i) self p conversation st)
      as [[c | e] st1]; simpl in Hone.
    + destruct (IH (S i) (results ++ [c])%list st1) as [Hext Hlen]. split.
      * eapply extends_trans; [| exact Hext].
        now apply appends_at_most_one_extends with conversation.
      * intros r. specialize (Hlen r).
        pose proof (appends_at_most_one_length _ _ _ r Hone) as Hstep.
        cbn [count_occ]. destruct (Nat.eq_dec conversation r) as [-> | Hne].
        -- rewrite Nat.eqb_refl in Hstep. lia.
        -- apply Nat.eqb_neq in Hne. rewrite Hne in Hstep. lia.
    + simpl. split.
      * now apply appends_at_most_one_extends with conversation.
      * intros r. pose proof (appends_at_most_one_length _ _ _ r Hone) as Hstep.
        cbn [count_occ]. destruct (Nat.eq_dec conversation r) as [-> | Hne].
        -- rewrite Nat.eqb_refl in Hstep. lia.
        -- apply Nat.eqb_neq in Hne. rewrite Hne in Hstep. lia.
Qed.

(** ** The event loop of abatch *)

Lemma Forall2_starts_refl ts : Forall2 starts ts ts.
Proof. induction ts; constructor; [constructor | assumption]. Qed.

Lemma start_waiting_spec self p ts :
  forall permits st seen ts' k st' seen',
    start_waiting self p ts permits st seen = (ts', k, st', seen') ->
    st' = st /\ Forall2 starts ts ts'.
Proof.
  induction ts as [| [c ph] ts IH]; intros permits st seen ts' k st' seen' H.
  - simpl in H. inversion H; subst. split; [reflexivity | constructor].
  - destruct ph as [| data | r]; simpl in H.
    + destruct permits as [| n].
      * inversion H; subst. split; [reflexivity | apply Forall2_starts_refl].
      * pose proof (apredict_begin_pure self p c st) as Hpure.
        destruct (apredict_begin self p c st) as [[data | e] st1].
        -- simpl in Hpure. subst st1.
           destruct (start_waiting self p ts n st seen) as [[[ts1 k1] st2] seen1] eqn:Hr.
           inversion H; subst. apply IH in Hr as [-> HF].
           split; [reflexivity | constructor; [constructor | assumption]].
        -- simpl in Hpure. subst st1.
           destruct (start_waiting self p ts (S n) st (note seen e))
             as [[[ts1 k1] st2] seen1] eqn:Hr.
           inversion H; subst. apply IH in Hr as [-> HF].
           split; [reflexivity | constructor; [constructor | assumption]].
    + destruct (start_waiting self p ts permits st seen) as [[[ts1 k1] st2] seen1] eqn:Hr.
      inversion H; subst. apply IH in Hr as [-> HF].
      split; [reflexivity | constructor; [constructor | assumption]].
    + destruct (start_waiting self p ts permits st seen) as [[[ts1 k1] st2] seen1] eqn:Hr.
      inversion H; subst. apply IH in Hr as [-> HF].
      split; [reflexivity | constructor; [constructor | assumption]].
Qed.

Lemma starts_conversations ts ts' :
  Forall2 starts ts ts' -> map fst ts' = map fst ts.
Proof.
  induction 1 as [| t t' ts ts' Ht _ IH]; [reflexivity |].
  simpl. rewrite IH. now destruct Ht.
Qed.

Lemma starts_done_on r ts ts' :
  Forall2 starts ts ts' -> done_on r ts <= done_on r ts'.
Proof.
  induction 1 as [| t t' ts ts' Ht _ IH]; [reflexivity |].
  destruct Ht as [[c ph] | c data | c e]; simpl.
  - destruct ph; lia.
  - lia.
  - lia.
Qed.


Lemma set_nth_conversations i c ph ph' (ts : list (ref * phase)) :
  nth_error ts i = Some (c, ph) ->
  map fst (set_nth i (c, ph') ts) = map fst ts.
Proof.
  revert i. induction ts as [| t ts IH]; intros [| i]; simpl; try discriminate.
  - intros H. injection H as ->. reflexivity.
  - intros H. now rewrite (IH i H).
Qed.

Lemma set_nth_done_on r i c data x ts :
  nth_error ts i = Some (c, InFlight data) ->
  done_on r (set_nth i (c, Done x) ts)
  = (if Nat.eqb c r then 1 else 0) + done_on r ts.
Proof.
  revert i. induction ts as [| [c0 ph] ts IH]; intros [| i]; simpl; try discriminate.
  - intros H. injection H as -> ->. reflexivity.
  - intros H. rewrite (IH i H). destruct ph; lia.
Qed.



Lemma done_on_count r ts : done_on r ts <= count_occ Nat.eq_dec (map fst ts) r.
Proof.
  induction ts as [| [c ph] ts IH]; simpl; [lia |].
  destruct (Nat.eq_dec c r) as [-> | Hne].
  - rewrite ?Nat.eqb_refl. destruct ph; lia.
  - apply Nat.eqb_neq in Hne. rewrite ?Hne. destruct ph; lia.
Qed.


Section EventLoop.

Variable model_validate : value -> result UsageData.
Variable network : nat -> Http.transport.
Variable self : GroqVisionModel.
Variable p : params.

(** One completion: nothing happens, or the task in flight at [i] finishes
    with the outcome of the rest of [apredict], and waiting tasks start. *)
Lemma complete_spec l i :
  complete model_validate network self p l i = l
  \/ exists c data,
       nth_error (tasks l) i = Some (c, InFlight data)
       /\ let run := apredict_resume model_validate
                       (_make_request (network i) self data) c (heap l) in
          heap (complete model_validate network self p l i) = snd run
          /\ Forall2 starts (set_nth i (c, Done (fst run)) (tasks l))
               (tasks (complete model_validate network self p l i)).
Proof.
  unfold complete.
  destruct (nth_error (tasks l) i) as [[c [| data | r]] |] eqn:Hnth; auto.
  right. exists c, data. split; [reflexivity |].
  destruct (apredict_resume model_validate (_make_request (network i) self data)
              c (heap l)) as [r st1].
  destruct (start_waiting self p (set_nth i (c, Done r) (tasks l))
              (S (permits l)) st1
              match r with
              | Ok _ => first_exception l
              | Raise e => note (first_exception l) e
              end) as [[[ts' k] st2] seen'] eqn:Hstart.
  apply start_waiting_spec in Hstart as [-> HF]. simpl. now split.
Qed.

Lemma abatch_start_grows conversations max_concurrent st :
  loop_grows st conversations (abatch_start self p conversations max_concurrent st).
Proof.
  unfold abatch_start.
  destruct (start_waiting self p (map (fun conv => (conv, Queued)) conversations)
              max_concurrent st None) as [[[ts k] st'] seen] eqn:Hstart.
  apply start_waiting_spec in Hstart as [-> HF]. unfold loop_grows; simpl.
  split; [| split].
  - rewrite (starts_conversations _ _ HF), map_map. simpl. apply map_id.
  - apply extends_refl.
  - intros r. lia.
Qed.

Lemma complete_grows st0 conversations l i :
  loop_grows st0 conversations l ->
  loop_grows st0 conversations (complete model_validate network self p l i).
Proof.
  intros (Hconv & Hext & Hlen).
  destruct (complete_spec l i) as [-> | (c & data & Hnth & Hheap & HF)];
    [now repeat split |].
  pose proof (apredict_resume_appends_at_most_one model_validate
                (_make_request (network i) self data) c (heap l)) as Hone.
  rewrite <- Hheap in Hone.
  split; [| split].
  - rewrite (starts_conversations _ _ HF).
    now rewrite (set_nth_conversations i _ _ (Done _) _ Hnth).
  - eapply extends_trans; [exact Hext |].
    now apply appends_at_most_one_extends with c.
  - intros r. specialize (Hlen r).
    pose proof (appends_at_most_one_length _ _ _ r Hone) as Hstep.
    pose proof (starts_done_on r _ _ HF) as Hdone.
    rewrite (set_nth_done_on r i _ _ _ _ Hnth) in Hdone. lia.
Qed.

Lemma run_grows st0 conversations schedule :
  forall l,
    loop_grows st0 conversations l ->
    loop_grows st0 conversations
      (fold_left (complete model_validate network self p) schedule l).
Proof.
  induction schedule as [| i schedule IH]; intros l Hl; simpl; [assumption |].
  apply IH. now apply complete_grows.
Qed.





End EventLoop.

(** C7. Every operation leaves each history it found as a prefix of the
    history it leaves. [predict], [apredict], and a [stream] or an [astream]
    consumed to any length, leave the store as it was or with one message
    appended to their conversation; [batch], and [abatch] under every order
    of completion, append to a conversation no more messages than the number
    of times it occurs in the batch. *)
Theorem histories_only_grow :
  forall json_loads model_validate (network : nat -> Http.transport) post self p
         conversation conversations max_concurrent schedule n st,
    (extends st (snd (predict model_validate post self p conversation st))
     /\ appends_at_most_one st conversation
          (snd (predict model_validate post self p conversation st)))
    /\ (extends st (snd (apredict model_validate post self p conversation st))
        /\ appends_at_most_one st conversation
             (snd (apredict model_validate post self p conversation st)))
    /\ (extends st
          (snd (consume (stream json_loads post self p conversation) n Created st))
        /\ appends_at_most_one st conversation
             (snd (consume (stream json_loads post self p conversation) n Created st)))
    /\ (extends st
          (snd (consume (astream json_loads post self p conversation) n Created st))
        /\ appends_at_most_one st conversation
             (snd (consume (astream json_loads post self p conversation) n Created st)))
    /\ (extends st (snd (batch model_validate network self p conversations st))
        /\ forall r,
             length (snd (batch model_validate network self p conversations st) r)
             <= length (st r) + count_occ Nat.eq_dec conversations r)
    /\ (extends st
          (snd (abatch model_validate network self p conversations max_concurrent
                  schedule st))
        /\ forall r,
             length (snd (abatch model_validate network self p conversations
                            max_concurrent schedule st) r)
             <= length (st r) + count_occ Nat.eq_dec conversations r).
Proof.
  intros json_loads model_validate network post self p conversation conversations
    max_concurrent schedule n st.
  assert (Hboth : forall st',
             appends_at_most_one st conversation st' ->
             extends st st' /\ appends_at_most_one st conversation st').
  { intros st' H. split; [now apply appends_at_most_one_extends with conversation
                         | assumption]. }
  repeat apply conj.
  - apply Hboth, predict_appends_at_most_one.
  - apply Hboth, predict_appends_at_most_one.
  - apply Hboth. rewrite <- predict_apredict. apply predict_appends_at_most_one.
  - rewrite <- predict_apredict. apply predict_appends_at_most_one.
  - apply Hboth, consume_appends_at_most_one. intros g st0. apply stream_store.
  - apply consume_appends_at_most_one. intros g st0. apply stream_store.
  - apply Hboth, consume_appends_at_most_one. intros g st0. apply astream_store.
  - apply consume_appends_at_most_one. intros g st0. apply astream_store.
  - apply batch_loop_grows.
  - apply batch_loop_grows.
  - unfold abatch. simpl.
    apply (run_grows model_validate network self p st conversations schedule).
    apply abatch_start_grows.
  - intros r. unfold abatch. simpl.
    destruct (run_grows model_validate network self p st conversations schedule
                (abatch_start self p conversations max_concurrent st)
                (abatch_start_grows self p conversations max_concurrent st))
      as (Hconv & _ & Hlen).
    specialize (Hlen r).
    pose proof (done_on_count r
                  (tasks (fold_left (complete model_validate network self p) schedule
                            (abatch_start self p conversations max_concurrent st))))
      as Hcount.
    rewrite Hconv in Hcount. lia.
Qed.

(** ** A failed request in a batch *)

Lemma predict_transport_fails model_validate post self p conversation st :
  transport_fails post ->
  exists e, predict model_validate post self p conversation st = (Raise e, st).
Proof.
  intros Hfail. rewrite predict_unfold.
  destruct (_format_messages (st conversation)) as [fm | e]; [| eauto].
  apply apredict_resume_raises. left.
  now apply make_request_transport_fails.
Qed.

Lemma batch_loop_raises model_validate network self p conversations :
  forall i j results st,
    j < length conversations ->
    transport_fails (network (i + j)) ->
    exists e,
      fst (batch_loop model_validate network self p i conversations results st)
      = Raise e.
Proof.
  induction conversations as [| conversation rest IH]; intros i j results st Hj Hfail;
    simpl in Hj; [lia |].
  cbn [batch_loop]. unfold mbind.
  destruct j as [| j].
  - rewrite Nat.add_0_r in Hfail.
    destruct (predict_transport_fails model_validate (network i) self p
                conversation st Hfail) as [e ->].
    simpl. eauto.
  - destruct (predict model_validate (network i) self p conversation st)
      as [[c | e] st1]; [| simpl; eauto].
    apply (IH (S i) j); [lia |].
    now replace (S i + j) with (i + S j) by lia.
Qed.






(** ** Remarks on the model *)

Example str_remove_prefix : str_remove (json_text "data: {'a':1}") "data: "
                            = json_text "{'a':1}".
Proof. reflexivity. Qed.

(** [replace] removes every occurrence of ['data: '], also inside the text
    of a delta. *)
Example str_remove_every_occurrence :
  str_remove "data: a data: b" "data: " = "a b".
Proof. reflexivity. Qed.

Example delta_text_loses_the_token :
  consume (stream Json.loads (serving [delta_line "see data: here"]) groq defaults 0)
    1 Created empty_store
  = ([PStr "see here"], None, Suspended [] None "see here", empty_store).
Proof. vm_compute. reflexivity. Qed.

Example truthy_negative_zero : truthy (PFloat (S754_zero true)) = false.
Proof. reflexivity. Qed.

(** Subscripts raise KeyError, IndexError or TypeError, never a decoding
    error. *)
Lemma getitem_str_not_decode v k : getitem_str v k <> Raise JSONDecodeError.
Proof.
  destruct v; simpl; try discriminate.
  destruct (dict_get d k); discriminate.
Qed.

Lemma getitem_int_not_decode v i : getitem_int v i <> Raise JSONDecodeError.
Proof.
  destruct v; simpl; try discriminate.
  - destruct (String.get i s); discriminate.
  - destruct (nth_error l i); discriminate.
Qed.

Lemma delta_of_not_decode chunk : delta_of chunk <> Raise JSONDecodeError.
Proof.
  unfold delta_of.
  destruct (getitem_str chunk "choices") as [c | e] eqn:Hc; simpl;
    [| rewrite <- Hc; apply getitem_str_not_decode].
  destruct (getitem_int c 0) as [c0 | e] eqn:Hc0; simpl;
    [| rewrite <- Hc0; apply getitem_int_not_decode].
  apply getitem_str_not_decode.
Qed.

(** The loop body, case by case. *)
Lemma on_line_cases json_loads line mc :
  on_line json_loads line mc
  = match str_remove line "data: " with
    | EmptyString => Ok None
    | json_str =>
        match json_loads json_str with
        | Raise JSONDecodeError => Ok None
        | Raise e => Raise e
        | Ok chunk =>
            match delta_of chunk with
            | Raise e => Raise e
            | Ok d =>
                if truthy d then
                  match getitem_str d "content" with
                  | Raise e => Raise e
                  | Ok (PStr t) => Ok (Some (PStr t, mc ++ t))
                  | Ok _ => Raise TypeError
                  end
                else Ok None
            end
        end
    end.
Proof.
  unfold on_line.
  destruct (str_remove line "data: ") as [| a json_str]; [reflexivity |].
  cbn [truthy String.eqb negb].
  destruct (json_loads (String a json_str)) as [chunk | e];
    [| destruct e; reflexivity].
  cbn [bind].
  pose proof (delta_of_not_decode chunk) as Hnd. unfold delta_of in *.
  destruct (getitem_str chunk "choices") as [c | e]; cbn [bind] in *;
    [| destruct e; congruence].
  destruct (getitem_int c 0) as [c0 | e]; cbn [bind] in *;
    [| destruct e; congruence].
  destruct (getitem_str c0 "delta") as [d | e]; cbn [bind] in *;
    [| destruct e; congruence].
  destruct (truthy d); [| reflexivity].
  pose proof (getitem_str_not_decode d "content") as Hnc.
  destruct (getitem_str d "content") as [delta | e]; cbn [bind];
    [| destruct e; congruence].
  destruct delta; reflexivity.
Qed.

(** The lines the loop body accepts: those that are empty once ['data: '] is
    removed, those that do not decode, and those that decode to an event
    whose delta is falsy or has a string under [content]. *)
Lemma accepted_iff json_loads line :
  accepted json_loads line = true
  <-> str_remove line "data: " = EmptyString
      \/ json_loads (str_remove line "data: ") = Raise JSONDecodeError
      \/ exists chunk d,
           json_loads (str_remove line "data: ") = Ok chunk
           /\ delta_of chunk = Ok d
           /\ (truthy d = false \/ exists t, getitem_str d "content" = Ok (PStr t)).
Proof.
  unfold accepted. rewrite on_line_cases.
  destruct (str_remove line "data: ") as [| a json_str]; [tauto |].
  split.
  - intros Hacc. right.
    destruct (json_loads (String a json_str)) as [chunk | e].
    + right. exists chunk.
      destruct (delta_of chunk) as [d | e]; [| discriminate].
      exists d. split; [reflexivity | split; [reflexivity |]].
      destruct (truthy d); [| now left].
      right. destruct (getitem_str d "content") as [[| | | | t | |] | e];
        try discriminate. now exists t.
    + left. destruct e; try discriminate. reflexivity.
  - intros [Hempty | [-> | (chunk & d & -> & -> & Hd)]];
      [discriminate | reflexivity |].
    destruct Hd as [-> | [t ->]]; [reflexivity |].
    now destruct (truthy d).
Qed.

(** ** The semaphore of abatch *)

Lemma start_waiting_permits self p ts :
  forall permits st seen ts' k st' seen',
    start_waiting self p ts permits st seen = (ts', k, st', seen') ->
    in_flight ts' + k = in_flight ts + permits.
Proof.
  induction ts as [| [c ph] ts IH]; intros permits st seen ts' k st' seen' H.
  - simpl in H. now inversion H.
  - destruct ph as [| data | r]; simpl in H.
    + destruct permits as [| n]; [now inversion H |].
      destruct (apredict_begin self p c st) as [[data | e] st1].
      * destruct (start_waiting self p ts n st1 seen) as [[[ts1 k1] st2] seen1] eqn:Hr.
        inversion H; subst. apply IH in Hr. simpl. lia.
      * destruct (start_waiting self p ts (S n) st1 (note seen e))
          as [[[ts1 k1] st2] seen1] eqn:Hr.
        inversion H; subst. apply IH in Hr. simpl. lia.
    + destruct (start_waiting self p ts permits st seen) as [[[ts1 k1] st2] seen1] eqn:Hr.
      inversion H; subst. apply IH in Hr. simpl. lia.
    + destruct (start_waiting self p ts permits st seen) as [[[ts1 k1] st2] seen1] eqn:Hr.
      inversion H; subst. apply IH in Hr. simpl. lia.
Qed.

Lemma set_nth_in_flight i c data x ts :
  nth_error ts i = Some (c, InFlight data) ->
  S (in_flight (set_nth i (c, Done x) ts)) = in_flight ts.
Proof.
  revert i. induction ts as [| [c0 ph] ts IH]; intros [| i]; simpl; try discriminate.
  - intros H. injection H as -> ->. reflexivity.
  - intros H. specialize (IH i H). destruct ph; lia.
Qed.

Lemma complete_permits model_validate network self p l i :
  in_flight (tasks (complete model_validate network self p l i))
  + permits (complete model_validate network self p l i)
  = in_flight (tasks l) + permits l.
Proof.
  unfold complete.
  destruct (nth_error (tasks l) i) as [[c [| data | r]] |] eqn:Hnth; try reflexivity.
  destruct (apredict_resume model_validate (_make_request (network i) self data)
              c (heap l)) as [r st1].
  destruct (start_waiting self p (set_nth i (c, Done r) (tasks l))
              (S (permits l)) st1
              match r with
              | Ok _ => first_exception l
              | Raise e => note (first_exception l) e
              end) as [[[ts' k] st2] seen'] eqn:Hstart.
  apply start_waiting_permits in Hstart. simpl.
  pose proof (set_nth_in_flight i c data r (tasks l) Hnth). lia.
Qed.

(** At every moment the tasks in flight and the free permits add up to
    [max_concurrent]: no more than [max_concurrent] requests are in flight. *)
Lemma abatch_respects_the_cap model_validate network self p conversations
  max_concurrent schedule st :
  let l := fold_left (complete model_validate network self p) schedule
             (abatch_start self p conversations max_concurrent st) in
  in_flight (tasks l) + permits l = max_concurrent.
Proof.
  simpl.
  assert (Hstart : in_flight (tasks (abatch_start self p conversations
                                       max_concurrent st))
                   + permits (abatch_start self p conversations max_concurrent st)
                   = max_concurrent).
  { unfold abatch_start.
    destruct (start_waiting self p (map (fun conv => (conv, Queued)) conversations)
                max_concurrent st None) as [[[ts k] st'] seen] eqn:Hs.
    apply start_waiting_permits in Hs. simpl.
    rewrite Hs. clear Hs.
    induction conversations as [| c cs IH]; simpl; [reflexivity | exact IH]. }
  revert Hstart.
  generalize (abatch_start self p conversations max_concurrent st).
  induction schedule as [| i schedule IH]; intros l Hl; simpl; [assumption |].
  apply IH. now rewrite complete_permits.
Qed.

(** When every request succeeds the caller gets the conversations back, in
    the order of the input, whatever the order of completion. *)
Example abatch_returns_in_input_order :
  fst (abatch (UsageData_model_validate integer_count) (fun _ => answering (completion "ok"))
         groq defaults [5; 6; 7] 2 [1; 0; 2] empty_store)
  = Returned [5; 6; 7]
  /\ fst (abatch (UsageData_model_validate integer_count) (fun _ => answering (completion "ok"))
            groq defaults [5; 6; 7] 2 [1; 0] empty_store)
     = Pending.
Proof. split; vm_compute; reflexivity. Qed.

(** The same conversation twice in a batch is served twice. *)
Example batch_aliased_conversation :
  snd (batch (UsageData_model_validate integer_count) (fun _ => answering (completion "ok"))
         groq defaults [0; 0] empty_store) 0
  = [assistant "ok" (Some sample_usage); assistant "ok" (Some sample_usage)].
Proof. vm_compute. reflexivity. Qed.

(** ** Events that raise, for any decoder *)

(** A decoded object without a [choices] entry raises KeyError. *)
Lemma missing_choices_raises json_loads line d mc :
  str_remove line "data: " <> EmptyString ->
  json_loads (str_remove line "data: ") = Ok (PDict d) ->
  dict_get d "choices" = None ->
  on_line json_loads line mc = Raise (KeyError (PStr "choices")).
Proof.
  intros Hne Hloads Hmissing. rewrite on_line_cases.
  destruct (str_remove line "data: ") as [| a json_str]; [congruence |].
  rewrite Hloads. unfold delta_of. simpl. now rewrite Hmissing.
Qed.

(** A truthy delta without a [content] entry raises KeyError, and a truthy
    delta whose [content] is not a string (null for instance) raises
    TypeError at [+=]. *)
Lemma delta_without_text_raises json_loads line chunk dd mc :
  str_remove line "data: " <> EmptyString ->
  json_loads (str_remove line "data: ") = Ok chunk ->
  delta_of chunk = Ok (PDict dd) ->
  dd <> [] ->
  (dict_get dd "content" = None ->
   on_line json_loads line mc = Raise (KeyError (PStr "content")))
  /\ (forall v, dict_get dd "content" = Some v -> ~ is_str v ->
      on_line json_loads line mc = Raise TypeError).
Proof.
  intros Hne Hloads Hdelta Hdd. rewrite on_line_cases.
  destruct (str_remove line "data: ") as [| a json_str]; [congruence |].
  rewrite Hloads, Hdelta.
  destruct dd as [| kv dd]; [congruence |]. cbn [truthy getitem_str].
  split.
  - intros ->. reflexivity.
  - intros v -> Hnot. destruct v; try reflexivity.
    exfalso. apply Hnot. now exists s.
Qed.

(** * Further properties of the code *)

(** ** The unary operations *)

(** X1. The success path of [predict] and [apredict]: when the history can
    be formatted, the transport delivers a document whose completion text is
    a string, and the usage mapping of the document (the empty mapping when
    the document has none) validates, the conversation comes back with one
    assistant message appended that carries that text and that usage. *)
Theorem unary_success_appends_the_completion :
  forall model_validate post self p conversation st fm response doc text u,
    _format_messages (st conversation) = Ok fm ->
    post (unary_request self p fm) = Ok response ->
    Http.raise_for_status response = Ok tt ->
    Http.response_json response = Ok (PDict doc) ->
    completion_text (PDict doc) = Ok (PStr text) ->
    model_validate (usage_of doc) = Ok u ->
    predict model_validate post self p conversation st
    = (Ok conversation,
       upd st conversation (st conversation ++ [assistant text (Some u)])%list)
    /\ apredict model_validate post self p conversation st
       = (Ok conversation,
          upd st conversation (st conversation ++ [assistant text (Some u)])%list).
Proof.
  intros model_validate post self p conversation st fm response doc text u
    Hfm Hpost Hstatus Hdoc Htext Husage.
  rewrite <- predict_apredict.
  assert (predict model_validate post self p conversation st
          = (Ok conversation,
             upd st conversation (st conversation ++ [assistant text (Some u)])%list))
    as Hrun; [| now split].
  unfold predict, mbind, history, lift, ret, add_message, _make_request,
    _prepare_usage_data.
  rewrite Hfm. fold (unary_request self p fm). rewrite Hpost. cbn [bind].
  rewrite Hstatus. cbn [bind]. rewrite Hdoc, Htext.
  unfold usage_of in Husage. cbn [dict_method_get].
  destruct (dict_get doc "usage") as [v |]; rewrite Husage; reflexivity.
Qed.

Lemma unary_success_appends_the_completion_witness :
  predict (fun _ => Ok sample_usage) (answering (completion_without_usage "hello"))
    groq defaults 0 empty_store
  = (Ok 0, upd empty_store 0 (empty_store 0 ++ [assistant "hello" (Some sample_usage)])%list)
  /\ apredict (fun _ => Ok sample_usage) (answering (completion_without_usage "hello"))
       groq defaults 0 empty_store
     = (Ok 0, upd empty_store 0
                (empty_store 0 ++ [assistant "hello" (Some sample_usage)])%list).
Proof.
  refine (unary_success_appends_the_completion (fun _ => Ok sample_usage)
            (answering (completion_without_usage "hello")) groq defaults 0
            empty_store [] _ _ "hello" sample_usage
            eq_refl eq_refl eq_refl eq_refl eq_refl eq_refl).
Defined.

(** X2. [predict] and [apredict] are the same operation: for every
    validation, transport, adapter, parameters, conversation and store they
    return the same result and leave the same store. *)
Theorem unary_sync_and_async_agree :
  forall model_validate post self p conversation st,
    apredict model_validate post self p conversation st
    = predict model_validate post self p conversation st.
Proof.
  intros. symmetry. apply predict_apredict.
Qed.

Lemma mapM_raises {A B} (f : A -> result B) l e :
  mapM f l = Raise e -> exists a, In a l /\ f a = Raise e.
Proof.
  induction l as [| a l IH]; simpl; [discriminate |].
  destruct (f a) as [b | e0] eqn:Ha; simpl.
  - destruct (mapM f l) as [bs | e1]; simpl; [discriminate |].
    intros H. injection H as <-. destruct (IH eq_refl) as (a' & Hin & Hf). eauto.
  - intros H. injection H as <-. eauto.
Qed.

Lemma mapM_one_raises {A B} (f : A -> result B) l a e :
  In a l -> f a = Raise e -> exists e', mapM f l = Raise e'.
Proof.
  induction l as [| x l IH]; simpl; [tauto |].
  intros [-> | Hin] Hf.
  - rewrite Hf. simpl. eauto.
  - destruct (f x); simpl; [| eauto].
    destruct (IH Hin Hf) as [e' ->]. simpl. eauto.
Qed.

(** The one exception the formatter can raise on a message. *)
Lemma format_message_raises m e :
  format_message m = Raise e -> e = KeyError (PStr "type").
Proof.
  unfold format_message, model_dump. simpl.
  destruct (msg_content m) as [s | items]; [discriminate |].
  destruct (mapM retag (map PDict items)) as [items' | e0] eqn:Hmap; simpl;
    [discriminate |].
  intros H. injection H as <-.
  apply mapM_raises in Hmap as (item & Hin & Hretag).
  apply in_map_iff in Hin as (b & <- & _).
  unfold retag in Hretag. simpl in Hretag.
  destruct (dict_get b "type"); simpl in Hretag; congruence.
Qed.

Lemma untyped_history_raises h :
  untyped_history h -> _format_messages h = Raise (KeyError (PStr "type")).
Proof.
  intros (message & items & b & Hin & Hcontent & Hb & Htype).
  assert (exists e, format_message message = Raise e) as [e He].
  { unfold format_message, model_dump. simpl. rewrite Hcontent.
    destruct (mapM_one_raises retag (map PDict items) (PDict b)
                (KeyError (PStr "type"))) as [e' ->].
    - now apply in_map.
    - unfold retag. simpl. now rewrite Htype.
    - simpl. eauto. }
  destruct (mapM_one_raises format_message h message e Hin He) as [e' Hall].
  unfold _format_messages. rewrite Hall. f_equal.
  apply mapM_raises in Hall as (m' & _ & Hm').
  now apply format_message_raises in Hm'.
Qed.

(** X3. A conversation whose history holds a content block without a [type]
    entry cannot be sent: [predict], [apredict] and the first request for a
    fragment of [stream] and [astream] raise KeyError 'type' whatever the
    transport would answer, and the store is as it was. *)
Theorem untyped_block_stops_every_operation :
  forall json_loads model_validate post self p conversation st,
    untyped_history (st conversation) ->
    predict model_validate post self p conversation st
    = (Raise (KeyError (PStr "type")), st)
    /\ apredict model_validate post self p conversation st
       = (Raise (KeyError (PStr "type")), st)
    /\ stream json_loads post self p conversation Created st
       = (Raised (KeyError (PStr "type")), Finished, st)
    /\ astream json_loads post self p conversation Created st
       = (Raised (KeyError (PStr "type")), Finished, st).
Proof.
  intros json_loads model_validate post self p conversation st Hbad.
  apply untyped_history_raises in Hbad.
  rewrite <- predict_apredict, predict_unfold, Hbad.
  unfold stream, astream, mbind, history, lift. rewrite Hbad.
  repeat split; reflexivity.
Qed.

Lemma untyped_block_stops_every_operation_witness :
  let st := upd empty_store 0
              [{| msg_role := "user"; msg_name := None;
                  msg_content := Blocks [[("type", PStr "text"); ("text", PStr "a")];
                                         [("text", PStr "b")]];
                  msg_usage := None |}] in
  predict (UsageData_model_validate integer_count) (answering (completion "ok")) groq defaults 0 st
  = (Raise (KeyError (PStr "type")), st)
  /\ apredict (UsageData_model_validate integer_count) (answering (completion "ok")) groq defaults 0 st
     = (Raise (KeyError (PStr "type")), st)
  /\ stream Json.loads (answering (completion "ok")) groq defaults 0 Created st
     = (Raised (KeyError (PStr "type")), Finished, st)
  /\ astream Json.loads (answering (completion "ok")) groq defaults 0 Created st
     = (Raised (KeyError (PStr "type")), Finished, st).
Proof.
  intros st.
  apply (untyped_block_stops_every_operation Json.loads (UsageData_model_validate integer_count)
           (answering (completion "ok")) groq defaults 0 st).
  eexists _, _, [("text", PStr "b")].
  split; [left; reflexivity |].
  split; [reflexivity |].
  split; [right; left; reflexivity | reflexivity].
Defined.

(** X4. What [predict] and [apredict] use of the transport is its answer to
    one request: the POST to the completions URL, with the bearer header of
    the adapter and the payload built from the formatted history. Two
    transports that answer that request alike give the same result and the
    same store. *)
Theorem unary_result_depends_on_one_request :
  forall model_validate post post' self p conversation st fm,
    _format_messages (st conversation) = Ok fm ->
    post (unary_request self p fm) = post' (unary_request self p fm) ->
    predict model_validate post self p conversation st
    = predict model_validate post' self p conversation st
    /\ apredict model_validate post self p conversation st
       = apredict model_validate post' self p conversation st.
Proof.
  intros model_validate post post' self p conversation st fm Hfm Hsame.
  rewrite <- !predict_apredict, !predict_unfold, Hfm.
  unfold _make_request. fold (unary_request self p fm). rewrite Hsame.
  now split.
Qed.

Lemma unary_result_depends_on_one_request_witness :
  predict (UsageData_model_validate integer_count)
    (fun req => if String.eqb (Http.url req) _api_url
                then answering (completion "ok") req else unreachable req)
    groq defaults 0 empty_store
  = predict (UsageData_model_validate integer_count) (answering (completion "ok")) groq defaults 0
      empty_store
  /\ apredict (UsageData_model_validate integer_count)
       (fun req => if String.eqb (Http.url req) _api_url
                   then answering (completion "ok") req else unreachable req)
       groq defaults 0 empty_store
     = apredict (UsageData_model_validate integer_count) (answering (completion "ok")) groq defaults 0
         empty_store.
Proof.
  apply (unary_result_depends_on_one_request (UsageData_model_validate integer_count)
           (fun req => if String.eqb (Http.url req) _api_url
                       then answering (completion "ok") req else unreachable req)
           (answering (completion "ok")) groq defaults 0 empty_store []);
    reflexivity.
Defined.

(** ** The stream operations *)

(** After its request went through, an [astream] is consumed like a [stream]
    suspended at the head of the same lines with no failure pending. *)
Lemma astream_consumed_like_stream json_loads post post' self p conversation st
  response n :
  (exists fm, _format_messages (st conversation) = Ok fm) ->
  (forall req, post req = Ok response) ->
  Http.lines_error response = None ->
  Http.httpx_raise_for_status response = Ok tt ->
  consume (astream json_loads post self p conversation) (S n) Created st
  = consume (stream json_loads post' self p conversation) (S n)
      (Suspended (Http.lines response) None EmptyString) st.
Proof.
  intros Hfm Hpost Hclean Hstatus. cbn [consume].
  rewrite (astream_opens json_loads post self p conversation st response)
    by assumption.
  cbn [stream].
  destruct (stream_loop json_loads conversation (Http.lines response) None
              EmptyString st) as [[ev g] st'] eqn:Hstep.
  destruct ev as [v | |]; try reflexivity.
  destruct (stream_loop_yields_on _ _ _ _ _ _ _ _ _ Hstep) as (rest' & mc' & ->).
  now rewrite (consume_astream_suspended json_loads post post').
Qed.




(** Where the two part: a status that is neither a success nor an error for
    [requests] is read by [stream] and rejected by [astream], and a body that
    breaks off after a fragment gives [stream] the fragment and [astream]
    nothing. *)
Example stream_and_astream_part_on_a_redirect :
  consume (stream Json.loads (serving_with 300 [delta_line "A"]) groq defaults 0)
    2 Created empty_store
  = ([PStr "A"], Some StopIteration, Finished,
     upd empty_store 0 [assistant "A" None])
  /\ consume (astream Json.loads (serving_with 300 [delta_line "A"]) groq defaults 0)
       2 Created empty_store
     = ([], Some (Raised (HTTPStatusError 300)), Finished, empty_store).
Proof. split; vm_compute; reflexivity. Qed.

Example stream_and_astream_part_on_a_broken_body :
  consume (stream Json.loads (breaking [delta_line "A"] ConnectionError) groq
             defaults 0) 2 Created empty_store
  = ([PStr "A"], Some (Raised ConnectionError), Finished, empty_store)
  /\ consume (astream Json.loads (breaking [delta_line "A"] ConnectionError) groq
                defaults 0) 2 Created empty_store
     = ([], Some (Raised ConnectionError), Finished, empty_store).
Proof. split; vm_compute; reflexivity. Qed.

(** X6. When the transport of a stream fails (no connection, or a status
    that [raise_for_status] rejects), the first request for a fragment
    raises, the generator is finished, no fragment was yielded and nothing
    was appended. *)
Theorem stream_transport_failure_appends_nothing :
  forall json_loads post self p conversation st n,
    transport_fails post ->
    (exists e,
       consume (stream json_loads post self p conversation) (S n) Created st
       = ([], Some (Raised e), Finished, st))
    /\ (exists e,
          consume (astream json_loads post self p conversation) (S n) Created st
          = ([], Some (Raised e), Finished, st)).
Proof.
  intros json_loads post self p conversation st n Hfail.
  assert (Hs : exists e, stream json_loads post self p conversation Created st
                         = (Raised e, Finished, st)).
  { unfold stream, mbind, history, lift, ret.
    destruct (_format_messages (st conversation)) as [fm | e]; [| eauto].
    destruct Hfail as [[e Hdown] | (response & Hpost & Hlo & Hhi)].
    - rewrite Hdown. eauto.
    - rewrite Hpost. unfold Http.raise_for_status.
      apply Z.leb_le in Hlo. apply Z.ltb_lt in Hhi. rewrite Hlo, Hhi. simpl. eauto. }
  assert (Ha : exists e, astream json_loads post self p conversation Created st
                         = (Raised e, Finished, st)).
  { unfold astream, mbind, history, lift, ret, Http.httpx_post.
    destruct (_format_messages (st conversation)) as [fm | e]; [| eauto].
    destruct Hfail as [[e Hdown] | (response & Hpost & Hlo & Hhi)].
    - rewrite Hdown. simpl. eauto.
    - rewrite Hpost. cbn [bind].
      destruct (Http.lines_error response); [eauto |].
      unfold Http.httpx_raise_for_status.
      replace (Http.status_code response <? 300)%Z with false
        by (symmetry; apply Z.ltb_ge; lia).
      rewrite andb_false_r. eauto. }
  destruct Hs as [e1 Hs], Ha as [e2 Ha].
  split; [exists e1 | exists e2]; cbn [consume]; [rewrite Hs | rewrite Ha];
    reflexivity.
Qed.

Lemma stream_transport_failure_appends_nothing_witness :
  (exists e,
     consume (stream Json.loads (refusing 429) groq defaults 0) 1 Created empty_store
     = ([], Some (Raised e), Finished, empty_store))
  /\ (exists e,
        consume (astream Json.loads (refusing 429) groq defaults 0) 1 Created
          empty_store
        = ([], Some (Raised e), Finished, empty_store)).
Proof.
  apply (stream_transport_failure_appends_nothing Json.loads (refusing 429) groq
           defaults 0 empty_store 0).
  right. eexists. split; [intros req; reflexivity |]. simpl. lia.
Defined.

Lemma on_line_fragment_text json_loads line d t :
  on_line json_loads line EmptyString = Ok (Some (d, t)) -> text_of d = t.
Proof.
  intros H. destruct (on_line_yields_text _ _ _ _ _ H) as (t0 & -> & ->).
  reflexivity.
Qed.

Section ReadToEnd.

Variable json_loads : string -> result value.
Variable next : generator -> store -> event * generator * store.
Variable conversation : ref.
Hypothesis next_suspended :
  forall rest broken mc st,
    next (Suspended rest broken mc) st
    = stream_loop json_loads conversation rest broken mc st.

Lemma read_suspended broken rest :
  forall mc st n,
    length rest < n ->
    consume next n (Suspended rest broken mc) st
    = match emitted json_loads rest, broken with
      | (fragments, Some e), _ => (fragments, Some (Raised e), Finished, st)
      | (fragments, None), Some e => (fragments, Some (Raised e), Finished, st)
      | (fragments, None), None =>
          (fragments, Some StopIteration, Finished,
           upd st conversation
             (st conversation ++ [assistant (mc ++ join fragments) None])%list)
      end.
Proof.
  induction rest as [| line rest IH]; intros mc st n Hlen.
  - destruct n as [| n]; [inversion Hlen |].
    cbn [consume emitted]. rewrite next_suspended. simpl.
    destruct broken; [reflexivity |]. simpl. now rewrite append_empty_r.
  - destruct n as [| n]; [inversion Hlen |]. simpl in Hlen.
    cbn [emitted].
    destruct (on_line json_loads line EmptyString) as [[[d t] |] | e] eqn:Hline.
    + cbn [consume]. rewrite next_suspended. cbn [stream_loop].
      rewrite on_line_accumulates, Hline.
      rewrite (IH (mc ++ t) st n) by lia.
      apply on_line_fragment_text in Hline.
      destruct (emitted json_loads rest) as [fragments [e |]].
      * reflexivity.
      * destruct broken; [reflexivity |].
        cbn [join fold_right]. fold (join fragments).
        now rewrite Hline, append_assoc.
    + rewrite <- (IH mc st (S n)) by lia. apply consume_first.
      rewrite !next_suspended. cbn [stream_loop].
      now rewrite on_line_accumulates, Hline.
    + cbn [consume]. rewrite next_suspended. cbn [stream_loop].
      rewrite on_line_accumulates, Hline. reflexivity.
Qed.

Lemma lazy_suspended broken rest :
  forall mc st n,
    n <= length (fst (emitted json_loads rest)) ->
    observed (consume next n (Suspended rest broken mc) st)
    = (firstn n (fst (emitted json_loads rest)), None, st).
Proof.
  induction rest as [| line rest IH]; intros mc st [| n] Hn; try reflexivity.
  - simpl in Hn. lia.
  - cbn [emitted] in *.
    destruct (on_line json_loads line EmptyString) as [[[d t] |] | e] eqn:Hline.
    + cbn [consume]. rewrite next_suspended. cbn [stream_loop].
      rewrite on_line_accumulates, Hline.
      destruct (emitted json_loads rest) as [fragments e] eqn:Hrest.
      simpl in Hn. specialize (IH (mc ++ t) st n). simpl in IH.
      destruct (consume next n (Suspended rest broken (mc ++ t)) st)
        as [[[vs ev] g] st'].
      simpl in *. assert (Hle : n <= length fragments) by lia.
      specialize (IH Hle). now inversion IH.
    + rewrite <- (IH mc st (S n) Hn). f_equal. apply consume_first.
      rewrite !next_suspended. cbn [stream_loop].
      now rewrite on_line_accumulates, Hline.
    + simpl in Hn. lia.
Qed.

End ReadToEnd.

(** X7. Reading a stream to its end, for every sequence of lines. After a
    request that went through, [stream] yields the fragment of each line
    that has one, in order, up to the first line that raises; then the
    consumer gets that exception, or the exception with which the transport
    broke off, and nothing is appended; or else the iteration ends and the
    join of the fragments is appended as one assistant message. [astream]
    does the same over a body that arrived in full and a status that [httpx]
    accepts; a body that broke off raises at its first request for a
    fragment, with nothing yielded and nothing appended. *)
Theorem stream_read_to_end :
  forall json_loads post self p conversation st response n,
    (exists fm, _format_messages (st conversation) = Ok fm) ->
    (forall req, post req = Ok response) ->
    length (Http.lines response) < n ->
    (Http.raise_for_status response = Ok tt ->
     consume (stream json_loads post self p conversation) n Created st
     = read_to_end json_loads (Http.lines response) (Http.lines_error response)
         conversation st)
    /\ (Http.httpx_raise_for_status response = Ok tt ->
        Http.lines_error response = None ->
        consume (astream json_loads post self p conversation) n Created st
        = read_to_end json_loads (Http.lines response) None conversation st)
    /\ (forall e,
          Http.lines_error response = Some e ->
          consume (astream json_loads post self p conversation) n Created st
          = ([], Some (Raised e), Finished, st)).
Proof.
  intros json_loads post self p conversation st response n Hfm Hpost Hlen.
  destruct n as [| n]; [inversion Hlen |].
  assert (Hread : forall broken,
             consume (stream json_loads post self p conversation) (S n)
               (Suspended (Http.lines response) broken EmptyString) st
             = read_to_end json_loads (Http.lines response) broken
                 conversation st).
  { intros broken. unfold read_to_end.
    rewrite (read_suspended json_loads
               (stream json_loads post self p conversation) conversation
               (fun _ _ _ _ => eq_refl)) by assumption.
    destruct (emitted json_loads (Http.lines response)) as [fragments [e |]];
      reflexivity. }
  split; [| split].
  - intros Hstatus. rewrite <- Hread. apply consume_first.
    now rewrite (stream_opens json_loads post self p conversation st response).
  - intros Hstatus Hclean. rewrite <- Hread.
    now apply astream_consumed_like_stream.
  - intros e Hbroken. cbn [consume].
    now rewrite (astream_body_breaks json_loads post self p conversation st
                   response e).
Qed.

Lemma stream_read_to_end_witness :
  (consume (stream Json.loads
              (breaking [delta_line "A"; "data: "; delta_line "B"] ConnectionError)
              groq defaults 0) 4 Created empty_store
   = read_to_end Json.loads [delta_line "A"; "data: "; delta_line "B"]
       (Some ConnectionError) 0 empty_store
   /\ consume (astream Json.loads
                 (breaking [delta_line "A"; "data: "; delta_line "B"]
                    ConnectionError)
                 groq defaults 0) 4 Created empty_store
      = ([], Some (Raised ConnectionError), Finished, empty_store))
  /\ consume (astream Json.loads
                (serving [delta_line "A"; "data: "; delta_line "B"])
                groq defaults 0) 4 Created empty_store
     = read_to_end Json.loads [delta_line "A"; "data: "; delta_line "B"]
         None 0 empty_store.
Proof.
  split.
  - destruct (stream_read_to_end Json.loads
                (breaking [delta_line "A"; "data: "; delta_line "B"]
                   ConnectionError)
                groq defaults 0 empty_store
                {| Http.status_code := 200;
                   Http.response_json := Raise JSONDecodeError;
                   Http.lines := [delta_line "A"; "data: "; delta_line "B"];
                   Http.lines_error := Some ConnectionError |} 4)
      as (Hs & _ & Hb).
    + exists []. reflexivity.
    + intros req. reflexivity.
    + simpl. lia.
    + split; [apply Hs | apply Hb]; reflexivity.
  - destruct (stream_read_to_end Json.loads
                (serving [delta_line "A"; "data: "; delta_line "B"])
                groq defaults 0 empty_store
                {| Http.status_code := 200;
                   Http.response_json := Raise JSONDecodeError;
                   Http.lines := [delta_line "A"; "data: "; delta_line "B"];
                   Http.lines_error := None |} 4)
      as (_ & Ha & _).
    + exists []. reflexivity.
    + intros req. reflexivity.
    + simpl. lia.
    + apply Ha; reflexivity.
Defined.

(** A transport that breaks off after two fragments: [stream] yielded both,
    nothing was appended. *)
Example stream_broken_after_two_fragments :
  read_to_end Json.loads [delta_line "A"; "data: "; delta_line "B"]
    (Some ConnectionError) 0 empty_store
  = ([PStr "A"; PStr "B"], Some (Raised ConnectionError), Finished, empty_store).
Proof. vm_compute. reflexivity. Qed.

(** X8. The stream is lazy: after a request that went through (for
    [astream]: a status that [httpx] accepts and a body that arrived in
    full), a consumer that asks for [n] fragments, [n] no more than the
    stream has before its first raising line, gets exactly the first [n],
    sees no exception and no end, and the store is untouched, whatever the
    lines after them are. *)
Theorem stream_yields_a_prefix :
  forall json_loads post self p conversation st response n,
    (exists fm, _format_messages (st conversation) = Ok fm) ->
    (forall req, post req = Ok response) ->
    n <= length (fst (emitted json_loads (Http.lines response))) ->
    (Http.raise_for_status response = Ok tt ->
     observed (consume (stream json_loads post self p conversation) n Created st)
     = (firstn n (fst (emitted json_loads (Http.lines response))), None, st))
    /\ (Http.httpx_raise_for_status response = Ok tt ->
        Http.lines_error response = None ->
        observed (consume (astream json_loads post self p conversation) n Created st)
        = (firstn n (fst (emitted json_loads (Http.lines response))), None, st)).
Proof.
  intros json_loads post self p conversation st response n Hfm Hpost Hn.
  destruct n as [| n]; [split; reflexivity |].
  split.
  - intros Hstatus.
    rewrite (consume_first (stream json_loads post self p conversation) n Created
               (Suspended (Http.lines response) (Http.lines_error response)
                  EmptyString) st).
    + now apply (lazy_suspended json_loads
                   (stream json_loads post self p conversation) conversation
                   (fun _ _ _ _ => eq_refl)).
    + now rewrite (stream_opens json_loads post self p conversation st response).
  - intros Hstatus Hclean.
    rewrite (astream_consumed_like_stream json_loads post post self p
               conversation st response n) by assumption.
    now apply (lazy_suspended json_loads
                 (stream json_loads post self p conversation) conversation
                 (fun _ _ _ _ => eq_refl)).
Qed.

Lemma stream_yields_a_prefix_witness :
  observed (consume (stream Json.loads
                       (serving [delta_line "A"; delta_line "B";
                                 json_text "data: {'error':'x'}"])
                       groq defaults 0) 2 Created empty_store)
  = ([PStr "A"; PStr "B"], None, empty_store)
  /\ observed (consume (astream Json.loads
                          (serving [delta_line "A"; delta_line "B";
                                    json_text "data: {'error':'x'}"])
                          groq defaults 0) 2 Created empty_store)
     = ([PStr "A"; PStr "B"], None, empty_store).
Proof.
  destruct (stream_yields_a_prefix Json.loads
              (serving [delta_line "A"; delta_line "B";
                        json_text "data: {'error':'x'}"])
              groq defaults 0 empty_store
              {| Http.status_code := 200;
                 Http.response_json := Raise JSONDecodeError;
                 Http.lines := [delta_line "A"; delta_line "B";
                                json_text "data: {'error':'x'}"];
                 Http.lines_error := None |} 2) as [Hs Ha].
  - exists []. reflexivity.
  - intros req. reflexivity.
  - vm_compute. lia.
  - split; [apply Hs | apply Ha]; reflexivity.
Defined.

(** X9. The handler of the loop body suppresses the decoder's
    JSONDecodeError and nothing else. On a line that is not empty once
    ['data: '] is removed: any other exception of the decoder, every
    exception of the subscripts that reach for [choices][0][delta], a missing
    [content] under a truthy delta, and a [content] that is not a string
    (TypeError at [+=]) all leave the loop body. *)
Theorem only_decoder_failures_are_caught :
  forall json_loads line mc,
    str_remove line "data: " <> EmptyString ->
    (forall e, json_loads (str_remove line "data: ") = Raise e ->
               e <> JSONDecodeError ->
               on_line json_loads line mc = Raise e)
    /\ (forall chunk e,
          json_loads (str_remove line "data: ") = Ok chunk ->
          delta_of chunk = Raise e ->
          on_line json_loads line mc = Raise e)
    /\ (forall chunk d e,
          json_loads (str_remove line "data: ") = Ok chunk ->
          delta_of chunk = Ok d -> truthy d = true ->
          getitem_str d "content" = Raise e ->
          on_line json_loads line mc = Raise e)
    /\ (forall chunk d v,
          json_loads (str_remove line "data: ") = Ok chunk ->
          delta_of chunk = Ok d -> truthy d = true ->
          getitem_str d "content" = Ok v -> ~ is_str v ->
          on_line json_loads line mc = Raise TypeError).
Proof.
  intros json_loads line mc Hne. rewrite on_line_cases.
  destruct (str_remove line "data: ") as [| a json_str]; [congruence |].
  repeat split.
  - intros e -> Hnd. destruct e; congruence.
  - intros chunk e -> ->. reflexivity.
  - intros chunk d e -> -> -> ->. reflexivity.
  - intros chunk d v -> -> -> -> Hnot.
    destruct v; try reflexivity. exfalso. apply Hnot. now exists s.
Qed.

Lemma only_decoder_failures_are_caught_witness :
  on_line (fun _ => Raise (ValueError "recursion limit")) "data: [[[[" "so far"
  = Raise (ValueError "recursion limit")
  /\ on_line Json.loads (json_text "data: {'choices':[]}") "so far" = Raise IndexError
  /\ on_line Json.loads (json_text "data: {'choices':[{'delta':{'role':'assistant'}}]}")
       "so far"
     = Raise (KeyError (PStr "content"))
  /\ on_line Json.loads
       (json_text "data: {'choices':[{'delta':{'content':null,'tool_calls':[]}}]}")
       "so far"
     = Raise TypeError.
Proof.
  split; [| split; [| split]].
  - apply (proj1 (only_decoder_failures_are_caught
                    (fun _ => Raise (ValueError "recursion limit")) "data: [[[["
                    "so far" ltac:(discriminate)));
      [reflexivity | discriminate].
  - apply (proj1 (proj2 (only_decoder_failures_are_caught Json.loads
                           (json_text "data: {'choices':[]}") "so far"
                           ltac:(discriminate)))
             (PDict [("choices", PList [])])); reflexivity.
  - apply (proj1 (proj2 (proj2 (only_decoder_failures_are_caught Json.loads
                                  (json_text "data: {'choices':[{'delta':{'role':'assistant'}}]}")
                                  "so far" ltac:(discriminate))))
             (PDict [("choices", PList [PDict [("delta", PDict [("role", PStr "assistant")])]])])
             (PDict [("role", PStr "assistant")])); reflexivity.
  - apply (proj2 (proj2 (proj2 (only_decoder_failures_are_caught Json.loads
                                  (json_text "data: {'choices':[{'delta':{'content':null,'tool_calls':[]}}]}")
                                  "so far" ltac:(discriminate))))
             (PDict [("choices",
                      PList [PDict [("delta", PDict [("content", PNone);
                                                     ("tool_calls", PList [])])]])])
             (PDict [("content", PNone); ("tool_calls", PList [])]) PNone);
      try reflexivity.
    intros [t Ht]. discriminate.
Defined.

(** X10. A line goes by without a fragment and without an exception exactly
    when it is empty once ['data: '] is removed, or the decoder raises
    JSONDecodeError on it, or it decodes to an event whose
    [choices][0][delta] is falsy. *)
Theorem silently_skipped_lines :
  forall json_loads line mc,
    on_line json_loads line mc = Ok None
    <-> str_remove line "data: " = EmptyString
        \/ json_loads (str_remove line "data: ") = Raise JSONDecodeError
        \/ exists chunk d,
             json_loads (str_remove line "data: ") = Ok chunk
             /\ delta_of chunk = Ok d /\ truthy d = false.
Proof.
  intros json_loads line mc. rewrite on_line_cases.
  destruct (str_remove line "data: ") as [| a json_str]; [tauto |].
  split.
  - intros Hnone. right.
    destruct (json_loads (String a json_str)) as [chunk | e].
    + right. exists chunk.
      destruct (delta_of chunk) as [d | e]; [| discriminate].
      exists d. split; [reflexivity | split; [reflexivity |]].
      destruct (truthy d); [| reflexivity].
      destruct (getitem_str d "content") as [[| | | | t | |] | e]; discriminate.
    + left. destruct e; try discriminate. reflexivity.
  - intros [Hempty | [-> | (chunk & d & -> & -> & ->)]];
      [discriminate | reflexivity | reflexivity].
Qed.

(** ** Removing the event token *)

(** X11. [line.replace('data: ', '')]: a line in which the token does not
    occur is left as it is, a token at the start of the line is removed, and
    the rest of the line is treated in the same way. *)
Theorem event_token_removal :
  (forall line, occurs "data: " line = false -> str_remove line "data: " = line)
  /\ (forall rest,
        str_remove ("data: " ++ rest) "data: " = str_remove rest "data: ").
Proof.
  split.
  - unfold str_remove. induction line as [| c line IH]; [reflexivity |].
    intros Hno. cbn [occurs] in Hno. apply orb_false_elim in Hno as [Hhere Hlater].
    cbn [remove_from]. rewrite Hhere, (IH Hlater). reflexivity.
  - intros rest. unfold str_remove. cbn. now destruct rest.
Qed.

Lemma event_token_removal_witness :
  str_remove (json_text "{'choices':[{'delta':{}}]}") "data: "
  = json_text "{'choices':[{'delta':{}}]}".
Proof.
  apply (proj1 event_token_removal). vm_compute. reflexivity.
Defined.

(** ** batch *)

Lemma batch_loop_ext model_validate self p (network network' : nat -> Http.transport)
  conversations :
  (forall k, network k = network' k) ->
  forall i results st,
    batch_loop model_validate network self p i conversations results st
    = batch_loop model_validate network' self p i conversations results st.
Proof.
  intros Hext. induction conversations as [| c l IH]; intros i results st;
    [reflexivity |].
  cbn [batch_loop]. unfold mbind. rewrite (Hext i).
  destruct (predict model_validate (network' i) self p c st) as [[rc | e] st1];
    [apply IH | reflexivity].
Qed.

Lemma batch_loop_app model_validate network self p l1 l2 :
  forall i results st,
    batch_loop model_validate network self p i (l1 ++ l2) results st
    = match batch_loop model_validate network self p i l1 results st with
      | (Ok rs1, st1) =>
          batch_loop model_validate network self p (i + length l1) l2 rs1 st1
      | (Raise e, st1) => (Raise e, st1)
      end.
Proof.
  induction l1 as [| c l1 IH]; intros i results st.
  - simpl. now rewrite Nat.add_0_r.
  - cbn [app batch_loop length]. unfold mbind.
    destruct (predict model_validate (network i) self p c st) as [[rc | e] st1];
      [| reflexivity].
    rewrite IH. now replace (S i + length l1) with (i + S (length l1)) by lia.
Qed.

Lemma batch_loop_from_zero model_validate self p conversations :
  forall network i results st,
    batch_loop model_validate network self p i conversations results st
    = match batch_loop model_validate (fun k => network (k + i)) self p 0
              conversations [] st with
      | (Ok rs, st') => (Ok (results ++ rs)%list, st')
      | (Raise e, st') => (Raise e, st')
      end.
Proof.
  induction conversations as [| c l IH]; intros network i results st.
  - simpl. unfold ret. now rewrite app_nil_r.
  - cbn [batch_loop]. unfold mbind. cbn [Nat.add].
    destruct (predict model_validate (network i) self p c st) as [[rc | e] st1];
      [| reflexivity].
    rewrite (IH network (S i)).
    rewrite (IH (fun k => network (k + i)) 1 ([] ++ [rc])%list).
    rewrite (batch_loop_ext model_validate self p
               (fun k => network (k + 1 + i)) (fun k => network (k + S i)))
      by (intros k; f_equal; lia).
    destruct (batch_loop model_validate (fun k => network (k + S i)) self p 0 l [] st1)
      as [[rs | e] st2]; [| reflexivity].
    now rewrite <- app_assoc.
Qed.

Lemma batch_loop_returns model_validate network self p conversations :
  forall i results st rs st',
    batch_loop model_validate network self p i conversations results st
    = (Ok rs, st') ->
    rs = (results ++ conversations)%list.
Proof.
  induction conversations as [| c l IH]; intros i results st rs st'.
  - simpl. unfold ret. intros H. injection H as <- _. now rewrite app_nil_r.
  - cbn [batch_loop]. unfold mbind.
    destruct (predict_cases model_validate (network i) self p c st)
      as [[e ->] | [message ->]]; [discriminate |].
    intros H. apply IH in H. now rewrite <- app_assoc in H.
Qed.

(** X12. Whenever [batch] returns, it returns the conversations it was
    given, the same objects in the same order. *)
Theorem batch_returns_its_input :
  forall model_validate network self p conversations st rs st',
    batch model_validate network self p conversations st = (Ok rs, st') ->
    rs = conversations.
Proof.
  intros model_validate network self p conversations st rs st' H.
  now apply batch_loop_returns in H.
Qed.

Lemma batch_returns_its_input_witness :
  exists rs st',
    batch (UsageData_model_validate integer_count) (fun _ => answering (completion "ok")) groq
      defaults [3; 1; 3] empty_store = (Ok rs, st')
    /\ rs = [3; 1; 3].
Proof.
  assert (H : batch (UsageData_model_validate integer_count) (fun _ => answering (completion "ok"))
                groq defaults [3; 1; 3] empty_store
              = (Ok [3; 1; 3],
                 snd (batch (UsageData_model_validate integer_count)
                        (fun _ => answering (completion "ok")) groq defaults
                        [3; 1; 3] empty_store)))
    by (vm_compute; reflexivity).
  exists [3; 1; 3]. eexists. split; [exact H |].
  exact (batch_returns_its_input _ _ _ _ _ _ _ _ H).
Defined.

(** X13. [batch] over two lists in a row is [batch] over the first, then
    [batch] over the second on the store the first left and with the
    following requests of the network; an exception in the first part ends
    the whole batch there. *)
Theorem batch_of_concatenation :
  forall model_validate network self p l1 l2 st,
    batch model_validate network self p (l1 ++ l2) st
    = match batch model_validate network self p l1 st with
      | (Ok rs1, st1) =>
          match batch model_validate (fun k => network (k + length l1)) self p l2 st1
          with
          | (Ok rs2, st2) => (Ok (rs1 ++ rs2)%list, st2)
          | (Raise e, st2) => (Raise e, st2)
          end
      | (Raise e, st1) => (Raise e, st1)
      end.
Proof.
  intros model_validate network self p l1 l2 st. unfold batch.
  rewrite batch_loop_app.
  destruct (batch_loop model_validate network self p 0 l1 [] st) as [[rs1 | e] st1];
    [| reflexivity].
  apply batch_loop_from_zero.
Qed.

(** X14. [batch] stops at the first request that raises: the conversations
    before it have been served, the exception is raised to the caller, and
    the store is the one the served conversations left, so that no later
    conversation has been touched or requested. *)
Theorem batch_stops_at_the_first_failure :
  forall model_validate network self p served conversation later st rs st1 e,
    batch model_validate network self p served st = (Ok rs, st1) ->
    fst (predict model_validate (network (length served)) self p conversation st1)
    = Raise e ->
    batch model_validate network self p (served ++ conversation :: later) st
    = (Raise e, st1).
Proof.
  intros model_validate network self p served conversation later st rs st1 e
    Hserved Hfail.
  unfold batch in *. rewrite batch_loop_app, Hserved.
  cbn [batch_loop Nat.add]. unfold mbind.
  destruct (predict_cases model_validate (network (length served)) self p
              conversation st1) as [[e' He] | [message He]];
    rewrite He in *; simpl in Hfail; [| discriminate].
  now injection Hfail as ->.
Qed.

Lemma batch_stops_at_the_first_failure_witness :
  batch (UsageData_model_validate integer_count) third_fails groq defaults ([0; 1] ++ 2 :: [3; 4])
    empty_store
  = (Raise ConnectionError,
     upd (upd empty_store 0 [assistant "ok" (Some sample_usage)]) 1
       [assistant "ok" (Some sample_usage)]).
Proof.
  apply (batch_stops_at_the_first_failure (UsageData_model_validate integer_count) third_fails
           groq defaults [0; 1] 2 [3; 4] empty_store [0; 1]);
    vm_compute; reflexivity.
Defined.

(** ** abatch *)

(** X15. The semaphore holds: whatever the order in which requests complete,
    the tasks awaiting their request and the free permits add up to
    [max_concurrent], so that at no moment more than [max_concurrent]
    requests are in flight. *)
Theorem abatch_in_flight_bounded :
  forall model_validate network self p conversations max_concurrent schedule st,
    in_flight (tasks (abatch_loop model_validate network self p conversations
                        max_concurrent schedule st))
    + permits (abatch_loop model_validate network self p conversations
                 max_concurrent schedule st)
    = max_concurrent
    /\ in_flight (tasks (abatch_loop model_validate network self p conversations
                           max_concurrent schedule st))
       <= max_concurrent.
Proof.
  intros model_validate network self p conversations max_concurrent schedule st.
  pose proof (abatch_respects_the_cap model_validate network self p conversations
                max_concurrent schedule st) as Hcap.
  simpl in Hcap. unfold abatch_loop. split; [exact Hcap | lia].
Qed.

Lemma abatch_unfold model_validate network self p conversations max_concurrent
  schedule st :
  abatch model_validate network self p conversations max_concurrent schedule st
  = (gather (abatch_loop model_validate network self p conversations
               max_concurrent schedule st),
     heap (abatch_loop model_validate network self p conversations
             max_concurrent schedule st)).
Proof. reflexivity. Qed.

Lemma starts_returns_own ts ts' :
  Forall2 starts ts ts' -> returns_own ts -> returns_own ts'.
Proof.
  unfold returns_own.
  induction 1 as [| t t' ts ts' Ht _ IH]; intros Hown; [constructor |].
  inversion Hown as [| ? ? Hhead Htail]; subst.
  constructor; [| now apply IH].
  destruct Ht; simpl in *; [assumption | discriminate | ].
  intros r H. discriminate.
Qed.

Lemma set_nth_returns_own i c r ts :
  (forall r', r = Ok r' -> r' = c) ->
  returns_own ts -> returns_own (set_nth i (c, Done r) ts).
Proof.
  unfold returns_own. intros Hr. revert i.
  induction ts as [| t ts IH]; intros [| i] Hown; simpl; try constructor;
    inversion Hown; subst; auto.
  simpl. intros r' H. injection H as ->. now apply Hr.
Qed.

Lemma results_of_own ts rs :
  results_of ts = Some rs -> returns_own ts -> rs = map fst ts.
Proof.
  revert rs. induction ts as [| [c ph] ts IH]; intros rs H Hown; simpl in *.
  - now injection H as <-.
  - destruct ph as [| | [r | e]]; try discriminate.
    destruct (results_of ts) as [rs' |]; [| discriminate].
    injection H as <-. inversion Hown as [| ? ? Hhead Htail]; subst.
    f_equal; [now apply (Hhead r) | now apply IH].
Qed.

Section EventLoopMore.

Variable model_validate : value -> result UsageData.
Variable network : nat -> Http.transport.
Variable self : GroqVisionModel.
Variable p : params.

Lemma abatch_loop_returns_own conversations max_concurrent schedule st :
  returns_own (tasks (abatch_loop model_validate network self p conversations
                        max_concurrent schedule st)).
Proof.
  unfold abatch_loop.
  assert (Hstart : returns_own (tasks (abatch_start self p conversations
                                         max_concurrent st))).
  { unfold abatch_start.
    destruct (start_waiting self p (map (fun conv => (conv, Queued)) conversations)
                max_concurrent st None) as [[[ts k] st'] seen] eqn:Hs.
    apply start_waiting_spec in Hs as [_ HF]. simpl.
    apply (starts_returns_own _ _ HF).
    unfold returns_own. apply Forall_forall. intros t Hin r Hr.
    apply in_map_iff in Hin as (c & <- & _). discriminate. }
  revert Hstart. generalize (abatch_start self p conversations max_concurrent st).
  induction schedule as [| i schedule IH]; intros l Hl; simpl; [assumption |].
  apply IH.
  destruct (complete_spec model_validate network self p l i)
    as [-> | (c & data & Hnth & _ & HF)]; [assumption |].
  apply (starts_returns_own _ _ HF).
  apply set_nth_returns_own; [| assumption].
  intros r' Hr'.
  destruct (apredict_resume_cases model_validate
              (_make_request (network i) self data) c (heap l))
    as [[e He] | [message He]]; rewrite He in Hr'; simpl in Hr'; congruence.
Qed.

End EventLoopMore.

(** X16. Whenever [abatch] returns, whatever the order in which the requests
    completed, it returns the conversations it was given, the same objects in
    the order of the input. *)
Theorem abatch_returns_its_input :
  forall model_validate network self p conversations max_concurrent schedule st rs,
    fst (abatch model_validate network self p conversations max_concurrent
           schedule st) = Returned rs ->
    rs = conversations.
Proof.
  intros model_validate network self p conversations max_concurrent schedule st rs.
  rewrite abatch_unfold. cbn [fst]. unfold gather.
  destruct (first_exception _); [discriminate |].
  destruct (results_of _) as [rs' |] eqn:Hres; [| discriminate].
  intros H. injection H as <-.
  apply results_of_own in Hres; [| apply abatch_loop_returns_own].
  rewrite Hres.
  exact (proj1 (run_grows model_validate network self p st conversations schedule
                  _ (abatch_start_grows self p conversations max_concurrent st))).
Qed.

Lemma abatch_returns_its_input_witness :
  fst (abatch (UsageData_model_validate integer_count) (fun _ => answering (completion "ok")) groq
         defaults [5; 6; 7] 2 [1; 2; 0] empty_store) = Returned [5; 6; 7]
  /\ [5; 6; 7] = [5; 6; 7].
Proof.
  assert (H : fst (abatch (UsageData_model_validate integer_count)
                     (fun _ => answering (completion "ok")) groq defaults
                     [5; 6; 7] 2 [1; 2; 0] empty_store) = Returned [5; 6; 7])
    by (vm_compute; reflexivity).
  split; [exact H |].
  exact (abatch_returns_its_input _ _ _ _ _ _ _ _ _ H).
Defined.

Lemma start_waiting_no_permit self p ts st seen :
  start_waiting self p ts 0 st seen = (ts, 0, st, seen).
Proof.
  induction ts as [| [c ph] ts IH]; [reflexivity |].
  destruct ph; simpl; try reflexivity; now rewrite IH.
Qed.

Lemma all_queued_results conversations :
  conversations <> [] ->
  results_of (map (fun conv : ref => (conv, Queued)) conversations) = None.
Proof. destruct conversations; [congruence | reflexivity]. Qed.

(** X17. With [max_concurrent = 0] no request is ever sent: whatever
    completions are awaited, a non-empty [abatch] stays pending and the store
    is as it was. *)
Theorem abatch_without_permits_never_starts :
  forall model_validate network self p conversations schedule st,
    conversations <> [] ->
    abatch model_validate network self p conversations 0 schedule st = (Pending, st)
    /\ in_flight (tasks (abatch_loop model_validate network self p conversations 0
                           schedule st)) = 0.
Proof.
  intros model_validate network self p conversations schedule st Hne.
  assert (Hloop : abatch_loop model_validate network self p conversations 0 schedule st
                  = {| tasks := map (fun conv => (conv, Queued)) conversations;
                       permits := 0; heap := st; first_exception := None |}).
  { unfold abatch_loop, abatch_start. rewrite start_waiting_no_permit.
    induction schedule as [| i schedule IH]; [reflexivity |].
    cbn [fold_left]. unfold complete at 2. cbn [tasks].
    rewrite nth_error_map.
    destruct (nth_error conversations i); exact IH. }
  rewrite abatch_unfold, Hloop. unfold gather. cbn [first_exception tasks heap].
  rewrite (all_queued_results conversations Hne). split; [reflexivity |].
  clear. induction conversations; simpl; auto.
Qed.

Lemma abatch_without_permits_never_starts_witness :
  abatch (UsageData_model_validate integer_count) (fun _ => answering (completion "ok")) groq defaults
    [0; 1] 0 [0; 1; 0] empty_store = (Pending, empty_store)
  /\ in_flight (tasks (abatch_loop (UsageData_model_validate integer_count)
                         (fun _ => answering (completion "ok")) groq defaults
                         [0; 1] 0 [0; 1; 0] empty_store)) = 0.
Proof.
  apply (abatch_without_permits_never_starts (UsageData_model_validate integer_count)
           (fun _ => answering (completion "ok")) groq defaults [0; 1] [0; 1; 0]
           empty_store).
  discriminate.
Defined.

Lemma start_waiting_seen self p ts :
  forall permits st seen ts' k st' seen' e,
    start_waiting self p ts permits st seen = (ts', k, st', seen') ->
    seen = Some e -> seen' = Some e.
Proof.
  induction ts as [| [c ph] ts IH]; intros permits st seen ts' k st' seen' e0 H Hseen.
  - simpl in H. inversion H; subst. reflexivity.
  - destruct ph as [| data | r]; simpl in H.
    + destruct permits as [| n]; [inversion H; subst; reflexivity |].
      destruct (apredict_begin self p c st) as [[data | e] st1].
      * destruct (start_waiting self p ts n st1 seen) as [[[ts1 k1] st2] seen1] eqn:Hr.
        inversion H; subst. eapply IH; eauto.
      * destruct (start_waiting self p ts (S n) st1 (note seen e))
          as [[[ts1 k1] st2] seen1] eqn:Hr.
        inversion H; subst. eapply IH; [exact Hr |]. reflexivity.
    + destruct (start_waiting self p ts permits st seen) as [[[ts1 k1] st2] seen1] eqn:Hr.
      inversion H; subst. eapply IH; eauto.
    + destruct (start_waiting self p ts permits st seen) as [[[ts1 k1] st2] seen1] eqn:Hr.
      inversion H; subst. eapply IH; eauto.
Qed.

Lemma complete_keeps_exception model_validate network self p l i e :
  first_exception l = Some e ->
  first_exception (complete model_validate network self p l i) = Some e.
Proof.
  intros Hseen. unfold complete.
  destruct (nth_error (tasks l) i) as [[c [| data | r]] |]; try assumption.
  destruct (apredict_resume model_validate (_make_request (network i) self data)
              c (heap l)) as [r st1].
  destruct (start_waiting self p (set_nth i (c, Done r) (tasks l))
              (S (permits l)) st1
              match r with
              | Ok _ => first_exception l
              | Raise e0 => note (first_exception l) e0
              end) as [[[ts' k] st2] seen'] eqn:Hstart.
  simpl. eapply start_waiting_seen; [exact Hstart |].
  rewrite Hseen. now destruct r.
Qed.

Lemma gather_raising l e :
  gather l = Raising e <-> first_exception l = Some e.
Proof.
  unfold gather. destruct (first_exception l) as [e0 |].
  - split; congruence.
  - destruct (results_of (tasks l)); split; discriminate.
Qed.

(** X18. The first exception is the one the caller gets: once [gather] has
    raised the exception of a task, nothing that completes or fails later
    replaces it. *)
Theorem abatch_first_exception_stays :
  forall model_validate network self p conversations max_concurrent s1 s2 st e,
    fst (abatch model_validate network self p conversations max_concurrent s1 st)
    = Raising e ->
    fst (abatch model_validate network self p conversations max_concurrent
           (s1 ++ s2) st)
    = Raising e.
Proof.
  intros model_validate network self p conversations max_concurrent s1 s2 st e.
  rewrite !abatch_unfold. cbn [fst]. rewrite !gather_raising.
  unfold abatch_loop. rewrite fold_left_app.
  generalize (fold_left (complete model_validate network self p) s1
                (abatch_start self p conversations max_concurrent st)).
  induction s2 as [| i s2 IH]; intros l Hl; simpl; [assumption |].
  apply IH. now apply complete_keeps_exception.
Qed.

Lemma abatch_first_exception_stays_witness :
  fst (abatch (UsageData_model_validate integer_count)
         (fun i => if Nat.eqb i 0 then refusing 500 else unreachable) groq defaults
         [0; 1; 2] 2 ([0] ++ [1; 2]) empty_store)
  = Raising (HTTPError 500).
Proof.
  apply (abatch_first_exception_stays (UsageData_model_validate integer_count)
           (fun i => if Nat.eqb i 0 then refusing 500 else unreachable) groq defaults
           [0; 1; 2] 2 [0] [1; 2] empty_store (HTTPError 500)).
  vm_compute. reflexivity.
Defined.

Lemma note_some seen e : note seen e <> None.
Proof. destruct seen; discriminate. Qed.

Lemma start_waiting_seen_some self p ts permits st seen ts' k st' seen' :
  start_waiting self p ts permits st seen = (ts', k, st', seen') ->
  seen <> None -> seen' <> None.
Proof.
  intros H Hseen. destruct seen as [e |]; [| congruence].
  now rewrite (start_waiting_seen self p ts permits st (Some e) ts' k st' seen' e H).
Qed.

Lemma failures_noted_mono ts seen seen' :
  (seen <> None -> seen' <> None) ->
  failures_noted ts seen -> failures_noted ts seen'.
Proof.
  unfold failures_noted. intros Hmono H.
  apply Forall_forall. intros t Hin e He.
  rewrite Forall_forall in H. eauto.
Qed.

Lemma start_waiting_noted self p ts :
  forall permits st seen ts' k st' seen',
    start_waiting self p ts permits st seen = (ts', k, st', seen') ->
    failures_noted ts seen -> failures_noted ts' seen'.
Proof.
  unfold failures_noted.
  induction ts as [| [c ph] ts IH]; intros permits st seen ts' k st' seen' H Hnoted.
  - simpl in H. inversion H; subst. constructor.
  - inversion Hnoted as [| ? ? Hhead Htail]; subst.
    destruct ph as [| data | r]; simpl in H.
    + destruct permits as [| n]; [inversion H; subst; assumption |].
      destruct (apredict_begin self p c st) as [[data | e] st1].
      * destruct (start_waiting self p ts n st1 seen) as [[[ts1 k1] st2] seen1] eqn:Hr.
        inversion H; subst. constructor; [discriminate | eapply IH; eauto].
      * destruct (start_waiting self p ts (S n) st1 (note seen e))
          as [[[ts1 k1] st2] seen1] eqn:Hr.
        inversion H; subst. constructor.
        -- intros e0 _. eapply start_waiting_seen_some; [exact Hr |].
           apply note_some.
        -- eapply IH; [exact Hr |].
           apply (failures_noted_mono ts seen); [intros _; apply note_some | exact Htail].
    + destruct (start_waiting self p ts permits st seen) as [[[ts1 k1] st2] seen1] eqn:Hr.
      inversion H; subst. constructor; [discriminate | eapply IH; eauto].
    + destruct (start_waiting self p ts permits st seen) as [[[ts1 k1] st2] seen1] eqn:Hr.
      inversion H; subst. constructor; [| eapply IH; eauto].
      intros e He. eapply start_waiting_seen_some; [exact Hr |]. eauto.
Qed.

Lemma start_waiting_conserving self p ts :
  forall permits st seen ts' k st' seen',
    start_waiting self p ts permits st seen = (ts', k, st', seen') ->
    k = 0 \/ queued ts' = 0.
Proof.
  induction ts as [| [c ph] ts IH]; intros permits st seen ts' k st' seen' H.
  - simpl in H. inversion H; subst. now right.
  - destruct ph as [| data | r]; simpl in H.
    + destruct permits as [| n]; [inversion H; subst; now left |].
      destruct (apredict_begin self p c st) as [[data | e] st1].
      * destruct (start_waiting self p ts n st1 seen) as [[[ts1 k1] st2] seen1] eqn:Hr.
        inversion H; subst. apply IH in Hr. exact Hr.
      * destruct (start_waiting self p ts (S n) st1 (note seen e))
          as [[[ts1 k1] st2] seen1] eqn:Hr.
        inversion H; subst. apply IH in Hr. exact Hr.
    + destruct (start_waiting self p ts permits st seen) as [[[ts1 k1] st2] seen1] eqn:Hr.
      inversion H; subst. apply IH in Hr. exact Hr.
    + destruct (start_waiting self p ts permits st seen) as [[[ts1 k1] st2] seen1] eqn:Hr.
      inversion H; subst. apply IH in Hr. exact Hr.
Qed.

Lemma set_nth_noted i c r ts seen :
  failures_noted ts seen ->
  failures_noted (set_nth i (c, Done r) ts)
    match r with
    | Ok _ => seen
    | Raise e => note seen e
    end.
Proof.
  unfold failures_noted. intros Hnoted.
  assert (Hmono : seen <> None ->
                  match r with Ok _ => seen | Raise e => note seen e end <> None).
  { destruct r; [auto | intros _; apply note_some]. }
  revert i. induction ts as [| t ts IH]; intros [| i]; simpl; try constructor;
    inversion Hnoted as [| ? ? Hhead Htail]; subst.
  - simpl. intros e He. injection He as ->. apply note_some.
  - apply (failures_noted_mono ts seen); assumption.
  - intros e He. apply Hmono. eauto.
  - now apply IH.
Qed.

(** Not finished, no failure: some task waits or is in flight. *)
Lemma unfinished_tasks ts seen :
  results_of ts = None -> failures_noted ts seen -> seen = None ->
  0 < queued ts + in_flight ts.
Proof.
  unfold failures_noted. intros Hres Hnoted ->.
  induction ts as [| [c ph] ts IH]; simpl in *; [discriminate |].
  inversion Hnoted as [| ? ? Hhead Htail]; subst.
  destruct ph as [| data | [r | e]]; try lia.
  - destruct (results_of ts); [discriminate |].
    specialize (IH eq_refl Htail). lia.
  - exfalso. now apply (Hhead e).
Qed.

Section EventLoopProgress.

Variable model_validate : value -> result UsageData.
Variable network : nat -> Http.transport.
Variable self : GroqVisionModel.
Variable p : params.

Lemma abatch_loop_invariants conversations max_concurrent schedule st :
  let l := abatch_loop model_validate network self p conversations max_concurrent
             schedule st in
  failures_noted (tasks l) (first_exception l)
  /\ (permits l = 0 \/ queued (tasks l) = 0).
Proof.
  simpl. unfold abatch_loop.
  assert (Hstart :
            failures_noted
              (tasks (abatch_start self p conversations max_concurrent st))
              (first_exception (abatch_start self p conversations max_concurrent st))
            /\ (permits (abatch_start self p conversations max_concurrent st) = 0
                \/ queued (tasks (abatch_start self p conversations
                                    max_concurrent st)) = 0)).
  { unfold abatch_start.
    destruct (start_waiting self p (map (fun conv => (conv, Queued)) conversations)
                max_concurrent st None) as [[[ts k] st'] seen] eqn:Hs.
    simpl. split.
    - eapply start_waiting_noted; [exact Hs |].
      unfold failures_noted. apply Forall_forall. intros t Hin e He.
      apply in_map_iff in Hin as (c & <- & _). discriminate.
    - eapply start_waiting_conserving; exact Hs. }
  revert Hstart. generalize (abatch_start self p conversations max_concurrent st).
  induction schedule as [| i schedule IH]; intros l Hl; simpl; [assumption |].
  apply IH. destruct Hl as [Hnoted Hcons].
  unfold complete.
  destruct (nth_error (tasks l) i) as [[c [| data | r]] |]; try (now split).
  destruct (apredict_resume model_validate (_make_request (network i) self data)
              c (heap l)) as [r st1].
  destruct (start_waiting self p (set_nth i (c, Done r) (tasks l))
              (S (permits l)) st1
              match r with
              | Ok _ => first_exception l
              | Raise e => note (first_exception l) e
              end) as [[[ts' k] st2] seen'] eqn:Hstart.
  simpl. split.
  - eapply start_waiting_noted; [exact Hstart |]. now apply set_nth_noted.
  - eapply start_waiting_conserving; exact Hstart.
Qed.

End EventLoopProgress.

(** X19. [abatch] does not stall: with at least one permit, as long as the
    caller is still waiting (no task has raised and not every task has
    returned), at least one request is in flight, so a completion can
    come. *)
Theorem abatch_pending_has_a_request_in_flight :
  forall model_validate network self p conversations max_concurrent schedule st,
    0 < max_concurrent ->
    fst (abatch model_validate network self p conversations max_concurrent
           schedule st) = Pending ->
    0 < in_flight (tasks (abatch_loop model_validate network self p conversations
                            max_concurrent schedule st)).
Proof.
  intros model_validate network self p conversations max_concurrent schedule st
    Hcap. rewrite abatch_unfold. cbn [fst].
  destruct (abatch_loop_invariants model_validate network self p conversations
              max_concurrent schedule st) as [Hnoted Hcons].
  pose proof (abatch_respects_the_cap model_validate network self p conversations
                max_concurrent schedule st) as Hsum.
  simpl in Hsum. fold (abatch_loop model_validate network self p conversations
                         max_concurrent schedule st) in Hsum.
  set (l := abatch_loop model_validate network self p conversations max_concurrent
              schedule st) in *.
  unfold gather.
  destruct (first_exception l) as [e |] eqn:Hseen; [discriminate |].
  destruct (results_of (tasks l)) eqn:Hres; [discriminate |].
  intros _.
  pose proof (unfinished_tasks (tasks l) None Hres Hnoted eq_refl) as Hsome.
  lia.
Qed.

Lemma abatch_pending_has_a_request_in_flight_witness :
  0 < in_flight (tasks (abatch_loop (UsageData_model_validate integer_count)
                          (fun _ => answering (completion "ok")) groq defaults
                          [0; 1; 2] 1 [0] empty_store)).
Proof.
  apply (abatch_pending_has_a_request_in_flight (UsageData_model_validate integer_count)
           (fun _ => answering (completion "ok")) groq defaults [0; 1; 2] 1 [0]
           empty_store).
  - lia.
  - vm_compute. reflexivity.
Defined.

Lemma starts_finished ts ts' :
  Forall2 starts ts ts' -> finished ts <= finished ts'.
Proof.
  induction 1 as [| t t' ts ts' Ht _ IH]; [reflexivity |].
  destruct Ht as [[c ph] | c data | c e]; simpl; [destruct ph |  |]; lia.
Qed.

Lemma set_nth_finished i c data x ts :
  nth_error ts i = Some (c, InFlight data) ->
  finished (set_nth i (c, Done x) ts) = S (finished ts).
Proof.
  revert i. induction ts as [| [c0 ph] ts IH]; intros [| i]; simpl; try discriminate.
  - intros H. injection H as -> ->. reflexivity.
  - intros H. rewrite (IH i H). now destruct ph.
Qed.

Lemma finished_length ts : finished ts <= length ts.
Proof. induction ts as [| [c ph] ts IH]; simpl; [lia | destruct ph; lia]. Qed.

(** X20. Completions make progress: a completion never turns a finished
    task back, the completion of a request in flight finishes at least one
    more task, and no more tasks finish than there are conversations; so
    [abatch] is through after at most that many completions of requests in
    flight. *)
Theorem abatch_completions_make_progress :
  forall model_validate network self p conversations max_concurrent schedule i st,
    finished (tasks (abatch_loop model_validate network self p conversations
                       max_concurrent schedule st))
    <= finished (tasks (abatch_loop model_validate network self p conversations
                          max_concurrent (schedule ++ [i]) st))
    /\ finished (tasks (abatch_loop model_validate network self p conversations
                          max_concurrent (schedule ++ [i]) st))
       <= length conversations
    /\ ((exists c data,
           nth_error (tasks (abatch_loop model_validate network self p conversations
                               max_concurrent schedule st)) i
           = Some (c, InFlight data)) ->
        finished (tasks (abatch_loop model_validate network self p conversations
                           max_concurrent schedule st))
        < finished (tasks (abatch_loop model_validate network self p conversations
                             max_concurrent (schedule ++ [i]) st))).
Proof.
  intros model_validate network self p conversations max_concurrent schedule i st.
  assert (Hlen : finished (tasks (abatch_loop model_validate network self p
                                    conversations max_concurrent (schedule ++ [i]) st))
                 <= length conversations).
  { pose proof (run_grows model_validate network self p st conversations
                  (schedule ++ [i]) _
                  (abatch_start_grows self p conversations max_concurrent st))
      as (Hconv & _ & _).
    unfold abatch_loop. rewrite <- Hconv at 2. rewrite length_map.
    apply finished_length. }
  unfold abatch_loop in *. rewrite fold_left_app in *. cbn [fold_left] in *.
  set (l := fold_left (complete model_validate network self p) schedule
              (abatch_start self p conversations max_concurrent st)) in *.
  destruct (complete_spec model_validate network self p l i)
    as [Hsame | (c & data & Hnth & _ & HF)].
  - rewrite Hsame in *. repeat split; [lia | assumption |].
    intros (c & data & Hnth). exfalso.
    unfold complete in Hsame. rewrite Hnth in Hsame.
    destruct (apredict_resume model_validate (_make_request (network i) self data)
                c (heap l)) as [r st1].
    destruct (start_waiting self p (set_nth i (c, Done r) (tasks l))
                (S (permits l)) st1
                match r with
                | Ok _ => first_exception l
                | Raise e => note (first_exception l) e
                end) as [[[ts' k] st2] seen'] eqn:Hstart.
    apply start_waiting_spec in Hstart as [_ HF].
    apply starts_finished in HF.
    rewrite (set_nth_finished i c data r (tasks l) Hnth) in HF.
    rewrite <- Hsame in HF at 1. simpl in HF. lia.
  - apply starts_finished in HF.
    rewrite (set_nth_finished i c data _ (tasks l) Hnth) in HF.
    repeat split; [lia | assumption | intros _; lia].
Qed.

Lemma abatch_completions_make_progress_witness :
  finished (tasks (abatch_loop (UsageData_model_validate integer_count) third_fails groq defaults
                     [0; 1; 2; 3; 4] 2 [1] empty_store))
  < finished (tasks (abatch_loop (UsageData_model_validate integer_count) third_fails groq defaults
                       [0; 1; 2; 3; 4] 2 ([1] ++ [2]) empty_store)).
Proof.
  apply (proj2 (proj2 (abatch_completions_make_progress (UsageData_model_validate integer_count)
                         third_fails groq defaults [0; 1; 2; 3; 4] 2 [1] 2
                         empty_store))).
  eexists _, _. vm_compute. reflexivity.
Defined.

(** ** The blocks the formatter sends *)

Lemma dict_set_absent d k v :
  ~ In k (keys d) -> dict_set d k v = (d ++ [(k, v)])%list.
Proof.
  induction d as [| [k0 v0] d IH]; simpl; intros Hnot; [reflexivity |].
  destruct (String.eqb_spec k0 k) as [-> | Hne]; [tauto |].
  rewrite IH; tauto.
Qed.

Lemma dict_set_cons k0 v0 d k v :
  dict_set ((k0, v0) :: d) k v
  = if String.eqb k0 k then (k0, v) :: d else (k0, v0) :: dict_set d k v.
Proof. reflexivity. Qed.

Lemma dict_update_type_first t b :
  forall acc,
    NoDup (keys b) ->
    (forall v, In ("type", v) b -> v = t) ->
    (forall k, In k (keys b) -> ~ In k (keys acc)) ->
    dict_update (("type", t) :: acc) b
    = (("type", t) :: acc
       ++ filter (fun kv => negb (String.eqb (fst kv) "type")) b)%list.
Proof.
  unfold dict_update.
  induction b as [| [k v] b IH]; intros acc Hnodup Ht Hfresh.
  - simpl. now rewrite app_nil_r.
  - inversion Hnodup as [| ? ? Hk Hrest]; subst.
    cbn [fold_left filter fst snd]. rewrite dict_set_cons.
    destruct (String.eqb_spec k "type") as [-> | Hne].
    + rewrite String.eqb_refl. cbn [negb].
      rewrite (Ht v) by (now left).
      apply IH; [assumption | intros v' Hin; apply Ht; now right |].
      intros k' Hin. apply Hfresh. now right.
    + destruct (String.eqb_spec "type" k) as [Heq | _]; [congruence |].
      cbn [negb].
      rewrite dict_set_absent by (apply Hfresh; now left).
      rewrite (IH (acc ++ [(k, v)])%list).
      * now rewrite <- app_assoc.
      * assumption.
      * intros v' Hin. apply Ht. now right.
      * intros k' Hin. unfold keys. rewrite map_app, in_app_iff. simpl.
        intros [Hacc | [<- | []]]; [| contradiction].
        revert Hacc. apply Hfresh. now right.
Qed.

Lemma dict_get_In b k v : NoDup (keys b) -> In (k, v) b -> dict_get b k = Some v.
Proof.
  induction b as [| [k0 v0] b IH]; simpl; [tauto |].
  intros Hnodup [Heq | Hin]; inversion Hnodup as [| ? ? Hk Hrest]; subst.
  - injection Heq as -> ->. now rewrite String.eqb_refl.
  - destruct (String.eqb_spec k0 k) as [-> | Hne]; [| now apply IH].
    exfalso. apply Hk. change k with (fst (k, v)). now apply in_map.
Qed.

(** X21. What the formatter sends for a typed block: the [type] entry first,
    then the other entries of the block in their order; and a block in that
    form goes through the formatter unchanged. *)
Theorem formatted_block_has_its_type_first :
  forall b t,
    NoDup (keys b) ->
    dict_get b "type" = Some t ->
    retag (PDict b) = Ok (PDict (type_first b t))
    /\ retag (PDict (type_first b t)) = Ok (PDict (type_first b t)).
Proof.
  intros b t Hnodup Htype.
  assert (Hfirst : forall b0,
             NoDup (keys b0) -> dict_get b0 "type" = Some t ->
             retag (PDict b0) = Ok (PDict (type_first b0 t))).
  { intros b0 Hnd Ht0. unfold retag. simpl. rewrite Ht0. simpl.
    rewrite (dict_update_type_first t b0 []); [reflexivity | assumption | | tauto].
    intros v Hin. rewrite (dict_get_In b0 "type" v Hnd Hin) in Ht0. congruence. }
  split; [now apply Hfirst |].
  assert (Hfilter : forall l : list (string * value),
             filter (fun kv => negb (String.eqb (fst kv) "type"))
               (filter (fun kv => negb (String.eqb (fst kv) "type")) l)
             = filter (fun kv => negb (String.eqb (fst kv) "type")) l).
  { induction l as [| kv l IH]; simpl; [reflexivity |].
    destruct (negb (String.eqb (fst kv) "type")) eqn:Hkv; simpl;
      [rewrite Hkv, IH; reflexivity | exact IH]. }
  rewrite Hfirst.
  - unfold type_first. cbn [filter fst]. rewrite String.eqb_refl. cbn [negb].
    now rewrite Hfilter.
  - unfold type_first, keys. simpl. constructor.
    + rewrite in_map_iff. intros ([k v] & Hk & Hin). simpl in Hk. subst k.
      apply filter_In in Hin as [_ Hneg]. simpl in Hneg. discriminate.
    + clear Htype. induction b as [| [k v] b IH]; simpl; [constructor |].
      inversion Hnodup as [| ? ? Hk Hrest]; subst.
      destruct (negb (String.eqb k "type")); simpl; [| now apply IH].
      constructor; [| now apply IH].
      intros Hin. apply Hk. apply in_map_iff in Hin as (kv & Hfst & Hin).
      apply filter_In in Hin as [Hin _]. apply in_map_iff. eauto.
  - unfold type_first. simpl. reflexivity.
Qed.

Lemma formatted_block_has_its_type_first_witness :
  retag (PDict [("text", PStr "hi"); ("type", PStr "text")])
  = Ok (PDict (type_first [("text", PStr "hi"); ("type", PStr "text")] (PStr "text")))
  /\ retag (PDict (type_first [("text", PStr "hi"); ("type", PStr "text")]
                     (PStr "text")))
     = Ok (PDict (type_first [("text", PStr "hi"); ("type", PStr "text")]
                    (PStr "text"))).
Proof.
  apply formatted_block_has_its_type_first; [| reflexivity].
  repeat constructor; simpl; intuition discriminate.
Defined.

(** ** VoyageEmbedding.transform *)

(** X22. [transform] calls the network exactly when it has something to
    embed: the empty list returns the empty list with no request, a
    non-empty list sends exactly one request, whatever the outcome, and that
    request is the POST of the texts and the model to the embeddings URL with
    the headers of the adapter; [infer_vector] always sends one. *)
Theorem transform_posts_once :
  forall Vector (Vector_new : value -> result Vector) describe post self log,
    Voyage.transform Vector_new describe post self [] log = (Ok [], log)
    /\ (forall text texts,
          snd (Voyage.transform Vector_new describe post self (text :: texts) log)
          = (log ++ [Voyage.embedding_request self (text :: texts)])%list)
    /\ (forall data,
          snd (Voyage.infer_vector Vector_new describe post self data log)
          = (log ++ [Voyage.embedding_request self [data]])%list).
Proof.
  intros Vector Vector_new describe post self log.
  assert (Hpost : forall text texts,
             snd (Voyage.transform Vector_new describe post self (text :: texts) log)
             = (log ++ [Voyage.embedding_request self (text :: texts)])%list).
  { intros text texts.
    unfold Voyage.transform, Voyage.wcatch, Voyage.wbind, Voyage.requests_post,
      Voyage.wlift.
    fold (Voyage.embedding_request self (text :: texts)).
    destruct (post _) as [response | e]; [| reflexivity].
    destruct (Http.raise_for_status response); [| reflexivity].
    destruct (Http.response_json response) as [doc | e]; [| reflexivity].
    simpl.
    repeat match goal with
           | |- context [match ?x with _ => _ end] => destruct x
           end; reflexivity. }
  split; [reflexivity | split; [exact Hpost |]].
  intros data. apply Hpost.
Qed.

(** X23. An adapter only ever asks for a model of the allow-list: an
    adapter that [__init__] returned holds the model given at construction,
    which is one of the allowed models, and the key as a bearer token;
    construction sent nothing; and the request of [transform] carries that
    model and those headers. *)
Theorem adapter_sends_what_it_was_built_with :
  forall (kwargs : Type) (EmbeddingBase_init : kwargs -> result unit)
         Vector (Vector_new : value -> result Vector) describe post
         api_key model kw log0 self log text texts,
    Voyage.__init__ EmbeddingBase_init api_key model kw log0 = (Ok self, log) ->
    In model Voyage._allowed_models
    /\ log = log0
    /\ self = {| Voyage.model := model;
                 Voyage._headers := [("Content-Type", "application/json");
                                     ("Authorization", "Bearer " ++ api_key)] |}
    /\ Http.json (Voyage.embedding_request self (text :: texts))
       = PDict [("input", PList (map PStr (text :: texts))); ("model", PStr model)]
    /\ snd (Voyage.transform Vector_new describe post self (text :: texts) log)
       = (log ++ [Voyage.embedding_request self (text :: texts)])%list.
Proof.
  intros kwargs EmbeddingBase_init Vector Vector_new describe post api_key model kw
    log0 self log text texts Hinit.
  unfold Voyage.__init__, Voyage.wbind, Voyage.wlift, Voyage.wret in Hinit.
  destruct (EmbeddingBase_init kw) as [[] | e]; [| discriminate].
  destruct (existsb (String.eqb model) Voyage._allowed_models) eqn:Hallowed;
    cbn [negb] in Hinit; [| discriminate].
  injection Hinit as <- <-.
  split; [now apply allowed_In |].
  split; [reflexivity |]. split; [reflexivity |]. split; [reflexivity |].
  unfold Voyage.transform, Voyage.wcatch, Voyage.wbind, Voyage.requests_post,
    Voyage.wlift.
  destruct (post _) as [response | e]; [| reflexivity].
  destruct (Http.raise_for_status response); [| reflexivity].
  destruct (Http.response_json response) as [doc | e]; [| reflexivity].
  simpl.
  repeat match goal with
         | |- context [match ?x with _ => _ end] => destruct x
         end; reflexivity.
Qed.

Lemma adapter_sends_what_it_was_built_with_witness :
  let self := {| Voyage.model := "voyage-large-2";
                 Voyage._headers := [("Content-Type", "application/json");
                                     ("Authorization", "Bearer " ++ "pa-key")] |} in
  In "voyage-large-2" Voyage._allowed_models
  /\ @nil Http.request = []
  /\ self = self
  /\ Http.json (Voyage.embedding_request self ("a" :: ["b"]))
     = PDict [("input", PList (map PStr ("a" :: ["b"])));
              ("model", PStr "voyage-large-2")]
  /\ snd (Voyage.transform (fun v => Ok v) (fun _ => "error") unreachable self
            ("a" :: ["b"]) [])
     = ([] ++ [Voyage.embedding_request self ("a" :: ["b"])])%list.
Proof.
  intros self.
  apply (adapter_sends_what_it_was_built_with unit (fun _ => Ok tt) value
           (fun v => Ok v) (fun _ => "error") unreachable "pa-key" "voyage-large-2"
           tt [] self []).
  reflexivity.
Defined.

(** X24. The exceptions of [transform]: a failed connection and a rejected
    status come out as ValueError 'Error calling Voyage AI API', a document
    without [data] as ValueError 'Error processing Voyage AI API response',
    each with the text of the original exception; a document that is not an
    object raises a TypeError that neither [except] clause catches, so it
    reaches the caller as it is. *)
Theorem transform_exceptions :
  forall Vector (Vector_new : value -> result Vector) describe post self text texts
         log,
    ((forall req, post req = Raise ConnectionError) ->
     fst (Voyage.transform Vector_new describe post self (text :: texts) log)
     = Raise (ValueError ("Error calling Voyage AI API: " ++ describe ConnectionError)))
    /\ (forall response,
          (forall req, post req = Ok response) ->
          (400 <= Http.status_code response < 600)%Z ->
          fst (Voyage.transform Vector_new describe post self (text :: texts) log)
          = Raise (ValueError ("Error calling Voyage AI API: "
                                 ++ describe (HTTPError (Http.status_code response)))))
    /\ (forall response d,
          (forall req, post req = Ok response) ->
          Http.raise_for_status response = Ok tt ->
          Http.response_json response = Ok (PDict d) ->
          dict_get d "data" = None ->
          fst (Voyage.transform Vector_new describe post self (text :: texts) log)
          = Raise (ValueError ("Error processing Voyage AI API response: "
                                 ++ describe (KeyError (PStr "data")))))
    /\ (forall response doc,
          (forall req, post req = Ok response) ->
          Http.raise_for_status response = Ok tt ->
          Http.response_json response = Ok doc ->
          (forall d, doc <> PDict d) ->
          fst (Voyage.transform Vector_new describe post self (text :: texts) log)
          = Raise TypeError).
Proof.
  intros Vector Vector_new describe post self text texts log.
  unfold Voyage.transform, Voyage.wcatch, Voyage.wbind, Voyage.requests_post,
    Voyage.wlift.
  repeat split.
  - intros Hpost. rewrite Hpost. reflexivity.
  - intros response Hpost [Hlo Hhi]. rewrite Hpost.
    unfold Http.raise_for_status.
    apply Z.leb_le in Hlo. apply Z.ltb_lt in Hhi. rewrite Hlo, Hhi. reflexivity.
  - intros response d Hpost Hstatus Hdoc Hdata.
    rewrite Hpost, Hstatus, Hdoc. simpl. rewrite Hdata. reflexivity.
  - intros response doc Hpost Hstatus Hdoc Hnot.
    rewrite Hpost, Hstatus, Hdoc.
    destruct doc; try reflexivity. now destruct (Hnot d).
Qed.

Lemma transform_exceptions_witness :
  fst (Voyage.transform (fun v => Ok v) (fun _ => "no route") unreachable
         {| Voyage.model := "voyage-2"; Voyage._headers := [] |} ("a" :: []) [])
  = Raise (ValueError ("Error calling Voyage AI API: " ++ "no route"))
  /\ fst (Voyage.transform (fun v => Ok v) (fun _ => "401") (refusing 401)
            {| Voyage.model := "voyage-2"; Voyage._headers := [] |} ("a" :: []) [])
     = Raise (ValueError ("Error calling Voyage AI API: " ++ "401"))
  /\ fst (Voyage.transform (fun v => Ok v) (fun _ => "'data'")
            (answering (PDict [("detail", PStr "quota")]))
            {| Voyage.model := "voyage-2"; Voyage._headers := [] |} ("a" :: []) [])
     = Raise (ValueError ("Error processing Voyage AI API response: " ++ "'data'"))
  /\ fst (Voyage.transform (fun v => Ok v) (fun _ => "x") (answering (PList []))
            {| Voyage.model := "voyage-2"; Voyage._headers := [] |} ("a" :: []) [])
     = Raise TypeError.
Proof.
  split; [| split; [| split]].
  - apply (proj1 (transform_exceptions value (fun v => Ok v) (fun _ => "no route")
                    unreachable {| Voyage.model := "voyage-2"; Voyage._headers := [] |}
                    "a" [] [])).
    intros req. reflexivity.
  - apply (proj1 (proj2 (transform_exceptions value (fun v => Ok v) (fun _ => "401")
                           (refusing 401)
                           {| Voyage.model := "voyage-2"; Voyage._headers := [] |}
                           "a" [] []))
             {| Http.status_code := 401;
                Http.response_json := Raise JSONDecodeError;
                Http.lines := []; Http.lines_error := None |});
      [intros req; reflexivity | simpl; lia].
  - apply (proj1 (proj2 (proj2 (transform_exceptions value (fun v => Ok v)
                                  (fun _ => "'data'")
                                  (answering (PDict [("detail", PStr "quota")]))
                                  {| Voyage.model := "voyage-2";
                                     Voyage._headers := [] |} "a" [] [])))
             {| Http.status_code := 200;
                Http.response_json := Ok (PDict [("detail", PStr "quota")]);
                Http.lines := []; Http.lines_error := None |}
             [("detail", PStr "quota")]);
      [intros req; reflexivity | reflexivity | reflexivity | reflexivity].
  - apply (proj2 (proj2 (proj2 (transform_exceptions value (fun v => Ok v)
                                  (fun _ => "x") (answering (PList []))
                                  {| Voyage.model := "voyage-2";
                                     Voyage._headers := [] |} "a" [] [])))
             {| Http.status_code := 200; Http.response_json := Ok (PList []);
                Http.lines := []; Http.lines_error := None |}
             (PList []));
      [intros req; reflexivity | reflexivity | reflexivity | intros d; discriminate].
Defined.

Lemma embeddings_read {Vector} (Vector_new : value -> result Vector) items vs :
  Forall2 (fun item v =>
             exists it e, item = PDict it /\ dict_get it "embedding" = Some e
                          /\ Vector_new e = Ok v) items vs ->
  mapM (fun item => e <- getitem_str item "embedding" ;; Vector_new e) items = Ok vs.
Proof.
  induction 1 as [| item v items vs (it & e & -> & Hget & Hnew) _ IH];
    [reflexivity |].
  cbn [mapM getitem_str]. rewrite Hget. cbn [bind]. rewrite Hnew. cbn [bind].
  now rewrite IH.
Qed.

(** X25. What [transform] returns: when the document has a list under
    [data] whose items each hold an [embedding] that makes a vector, the
    result is those vectors, one per item of the response and in its order,
    however many texts were sent. *)
Theorem transform_returns_the_embeddings :
  forall Vector (Vector_new : value -> result Vector) describe post self text texts
         log response d items vs,
    (forall req, post req = Ok response) ->
    Http.raise_for_status response = Ok tt ->
    Http.response_json response = Ok (PDict d) ->
    dict_get d "data" = Some (PList items) ->
    Forall2 (fun item v =>
               exists it e, item = PDict it /\ dict_get it "embedding" = Some e
                            /\ Vector_new e = Ok v) items vs ->
    Voyage.transform Vector_new describe post self (text :: texts) log
    = (Ok vs, (log ++ [Voyage.embedding_request self (text :: texts)])%list)
    /\ length vs = length items.
Proof.
  intros Vector Vector_new describe post self text texts log response d items vs
    Hpost Hstatus Hdoc Hdata Hitems.
  split; [| symmetry; now apply Forall2_length in Hitems].
  unfold Voyage.transform, Voyage.wcatch, Voyage.wbind, Voyage.requests_post,
    Voyage.wlift.
  fold (Voyage.embedding_request self (text :: texts)).
  rewrite Hpost, Hstatus, Hdoc. cbn [getitem_str]. rewrite Hdata.
  cbn [bind Voyage.iterate]. now rewrite (embeddings_read Vector_new items vs Hitems).
Qed.

Lemma transform_returns_the_embeddings_witness :
  Voyage.transform (fun v => Ok v) (fun _ => "error")
    (answering (PDict [("data", PList [PDict [("embedding", PList [PInt 1; PInt 2])]])]))
    {| Voyage.model := "voyage-2"; Voyage._headers := [] |} ("a" :: ["b"; "c"]) []
  = (Ok [PList [PInt 1; PInt 2]],
     ([] ++ [Voyage.embedding_request
               {| Voyage.model := "voyage-2"; Voyage._headers := [] |}
               ("a" :: ["b"; "c"])])%list)
  /\ length [PList [PInt 1; PInt 2]]
     = length [PDict [("embedding", PList [PInt 1; PInt 2])]].
Proof.
  apply (transform_returns_the_embeddings value (fun v => Ok v) (fun _ => "error")
           (answering (PDict [("data",
                               PList [PDict [("embedding", PList [PInt 1; PInt 2])]])]))
           {| Voyage.model := "voyage-2"; Voyage._headers := [] |} "a" ["b"; "c"] []
           {| Http.status_code := 200;
              Http.response_json :=
                Ok (PDict [("data",
                            PList [PDict [("embedding", PList [PInt 1; PInt 2])]])]);
              Http.lines := []; Http.lines_error := None |}
           [("data", PList [PDict [("embedding", PList [PInt 1; PInt 2])]])]
           [PDict [("embedding", PList [PInt 1; PInt 2])]]
           [PList [PInt 1; PInt 2]]).
  - intros req. reflexivity.
  - reflexivity.
  - reflexivity.
  - reflexivity.
  - constructor; [| constructor].
    exists [("embedding", PList [PInt 1; PInt 2])], (PList [PInt 1; PInt 2]).
    repeat split; reflexivity.
Defined.
